(** * Face authentication core: signature matcher, embedding codec,
      quality gate and liveness verifier

    A shallow embedding of [backend/face_service.py],
    [backend/liveness.py] and the routes of [backend/routes/auth.py]
    that register, authenticate and delete users.

    Numbers.  The Python and numpy floating-point values that the code
    computes with (distances, similarities, eye aspect ratios) are
    idealised as real numbers; [float('inf')] is the extra point [PInf].
    The embedding codec is about the stored representation, so there a
    32-bit float is its 32-bit pattern and the storage format is a list of
    bytes.

    Effects.  A Python call either returns or raises, which is the
    [outcome] monad below.  Calls to the external collaborators (face
    detector, embedding extractor, blink detection per frame) are recorded
    in an explicit trace where a property speaks about which of them
    happen. *)

From Stdlib Require Import Reals Lra List ZArith Lia String Bool Arith.
From Stdlib Require Strings.Byte.
From Stdlib Require DecimalString.
Import ListNotations.

Set Implicit Arguments.

(** ** Python outcomes *)

Inductive exn : Type :=
| ValueError (msg : string)
| IndexError (msg : string)
| ZeroDivisionError (msg : string)
| RuntimeError (msg : string).

Inductive outcome (A : Type) : Type :=
| Return (a : A)
| Raise (e : exn).

Arguments Return {A} a.
Arguments Raise {A} e.

Definition bind {A B : Type} (m : outcome A) (k : A -> outcome B) : outcome B :=
  match m with
  | Return a => k a
  | Raise e => Raise e
  end.

Notation "x <- m ;; k" := (bind m (fun x => k))
  (at level 61, m at next level, right associativity).

Definition raises {A : Type} (m : outcome A) : Prop :=
  match m with
  | Return _ => False
  | Raise _ => True
  end.

(** [str(e)] of an exception. *)
Definition str_exn (e : exn) : string :=
  match e with
  | ValueError m | IndexError m | ZeroDivisionError m | RuntimeError m => m
  end.

(** ** Calls to external collaborators

    A computation that may call collaborators threads the list of the
    calls made so far, oldest first, and ends in an outcome. *)

Section IO.

Variable E : Type.

Definition io (A : Type) : Type := list E -> outcome A * list E.

Definition io_ret {A : Type} (a : A) : io A := fun tr => (Return a, tr).

Definition io_raise {A : Type} (e : exn) : io A := fun tr => (Raise e, tr).

Definition io_bind {A B : Type} (m : io A) (k : A -> io B) : io B :=
  fun tr =>
    match m tr with
    | (Return a, tr') => k a tr'
    | (Raise e, tr') => (Raise e, tr')
    end.

(** A call [ev] to a collaborator whose answer is [r]. *)
Definition io_call {A : Type} (ev : E) (r : outcome A) : io A :=
  fun tr => (r, tr ++ [ev]).

(** [try: m except Exception as e: h e]. *)
Definition try_except {A : Type} (m : io A) (h : exn -> io A) : io A :=
  fun tr =>
    match m tr with
    | (Return a, tr') => (Return a, tr')
    | (Raise e, tr') => h e tr'
    end.

Definition run {A : Type} (m : io A) : outcome A * list E := m [].

End IO.

Arguments io_ret {E A} a.
Arguments io_raise {E A} e.
Arguments io_call {E A} ev r.

Notation "x <<- m ;; k" := (io_bind m (fun x => k))
  (at level 61, m at next level, right associativity).

(** ** Numbers *)

Open Scope R_scope.

Definition Rltb (x y : R) : bool := if Rlt_dec x y then true else false.
Definition Rleb (x y : R) : bool := if Rle_dec x y then true else false.

(** A Python float that may be [float('inf')]. *)
Inductive pyfloat : Type :=
| Fin (r : R)
| PInf.

Definition pyfloat_lt (x y : pyfloat) : bool :=
  match x, y with
  | Fin a, Fin b => Rltb a b
  | Fin _, PInf => true
  | PInf, _ => false
  end.

Definition pyfloat_le (x y : pyfloat) : bool :=
  match x, y with
  | Fin a, Fin b => Rleb a b
  | _, PInf => true
  | PInf, Fin _ => false
  end.

(** Python's [max(a, b)]: the first argument unless the second is
    strictly greater. *)
Definition py_max (a b : R) : R := if Rltb a b then b else a.

(** ** The part of numpy the service uses, on one-dimensional arrays *)

Module np.

Definition ndarray := list R.

Definition broadcast_error : exn :=
  ValueError "operands could not be broadcast together".

(** [a - b]: elementwise when the shapes agree; an array of one element
    is broadcast against the other; any other pair of shapes raises. *)
Fixpoint zip_sub (a b : ndarray) : ndarray :=
  match a, b with
  | x :: a', y :: b' => (x - y) :: zip_sub a' b'
  | _, _ => []
  end.

Definition subtract (a b : ndarray) : outcome ndarray :=
  if Nat.eqb (List.length a) (List.length b) then Return (zip_sub a b)
  else match a, b with
       | [x], _ => Return (map (fun y => x - y) b)
       | _, [y] => Return (map (fun x => x - y) a)
       | _, _ => Raise broadcast_error
       end.

Definition dot (a b : ndarray) : R :=
  fold_right Rplus 0 (map (fun p => fst p * snd p) (combine a b)).

(** [np.linalg.norm] of a vector: the square root of [x.dot(x)]. *)
Definition linalg_norm (x : ndarray) : R := sqrt (dot x x).

(** *** Raw storage of [float32] arrays

    An element of a [float32] array is its 32-bit pattern; the array's
    buffer holds the four bytes of each element, least significant
    first. *)

Definition float32 : Type := Z.

Definition is_float32 (w : float32) : Prop := (0 <= w < 2 ^ 32)%Z.

(** The eight exponent bits; all ones for infinities and NaNs. *)
Definition exponent_bits (w : float32) : Z := Z.land (Z.shiftr w 23) 255.

Definition finite32 (w : float32) : Prop :=
  is_float32 w /\ exponent_bits w <> 255%Z.

Definition byte_of_Z (z : Z) : Byte.byte :=
  match Byte.of_N (Z.to_N (z mod 256)) with
  | Some b => b
  | None => Byte.x00
  end.

Definition Z_of_byte (b : Byte.byte) : Z := Z.of_N (Byte.to_N b).

Definition item_bytes (w : float32) : list Byte.byte :=
  [byte_of_Z w; byte_of_Z (Z.shiftr w 8);
   byte_of_Z (Z.shiftr w 16); byte_of_Z (Z.shiftr w 24)].

Definition item_of_bytes (b0 b1 b2 b3 : Byte.byte) : float32 :=
  Z.lor (Z_of_byte b0)
    (Z.lor (Z.shiftl (Z_of_byte b1) 8)
       (Z.lor (Z.shiftl (Z_of_byte b2) 16) (Z.shiftl (Z_of_byte b3) 24))).

(** [a.tobytes()] *)
Definition tobytes (a : list float32) : list Byte.byte :=
  flat_map item_bytes a.

(** [np.frombuffer(data, dtype=np.float32)] *)
Fixpoint frombuffer (data : list Byte.byte) : outcome (list float32) :=
  match data with
  | [] => Return []
  | b0 :: b1 :: b2 :: b3 :: rest =>
      a <- frombuffer rest ;;
      Return (item_of_bytes b0 b1 b2 b3 :: a)
  | _ => Raise (ValueError "buffer size must be a multiple of element size")
  end.

End np.

(** ** The external face library

    An image is represented by what the two collaborators answer on it:
    the detected face boxes [(top, right, bottom, left)], in the
    detector's order, and the encodings the extractor produces.  Either
    call may raise. *)

Module face_recognition.

Definition box : Type := Z * Z * Z * Z.

Record image : Type := Image {
  locations_of : outcome (list box);
  encodings_of : outcome (list np.ndarray)
}.

Inductive call : Type :=
| FaceLocations
| FaceEncodings.

Definition face_locations (img : image) : io call (list box) :=
  io_call FaceLocations (locations_of img).

Definition face_encodings (img : image) : io call (list np.ndarray) :=
  io_call FaceEncodings (encodings_of img).

End face_recognition.

(** ** [FaceService]: distance, similarity and nearest-signature search *)

Module FaceService.

Definition DISTANCE_THRESHOLD : R := 1 / 2.

Definition calculate_distance (embedding1 embedding2 : np.ndarray) : outcome R :=
  d <- np.subtract embedding1 embedding2 ;;
  Return (np.linalg_norm d).

Definition calculate_similarity (embedding1 embedding2 : np.ndarray) : outcome R :=
  distance <- calculate_distance embedding1 embedding2 ;;
  Return (py_max 0 (1 - distance)).

(** A stored record [(embedding_id, user_id, embedding)]. *)
Definition stored : Type := Z * Z * np.ndarray.

(** The two loop variables of [find_match]. *)
Record scan : Type := Scan {
  best_match : option (Z * Z * R);
  best_distance : pyfloat
}.

Definition scan_init : scan := Scan None PInf.

Fixpoint find_match_loop (query_embedding : np.ndarray)
    (stored_embeddings : list stored) (st : scan) : outcome scan :=
  match stored_embeddings with
  | [] => Return st
  | (emb_id, user_id, stored_emb) :: rest =>
      distance <- calculate_distance query_embedding stored_emb ;;
      if pyfloat_lt (Fin distance) (best_distance st)
      then find_match_loop query_embedding rest
             (Scan (Some (emb_id, user_id, distance)) (Fin distance))
      else find_match_loop query_embedding rest st
  end.

Definition find_match (query_embedding : np.ndarray)
    (stored_embeddings : list stored) : outcome (option (Z * Z * R)) :=
  st <- find_match_loop query_embedding stored_embeddings scan_init ;;
  match best_match st with
  | Some (emb_id, user_id, distance) =>
      if pyfloat_le (best_distance st) (Fin DISTANCE_THRESHOLD)
      then Return (Some (emb_id, user_id, py_max 0 (1 - distance)))
      else Return None
  | None => Return None
  end.

Definition embedding_to_bytes (embedding : list np.float32) : list Byte.byte :=
  np.tobytes embedding.

Definition bytes_to_embedding (data : list Byte.byte) : outcome (list np.float32) :=
  np.frombuffer data.

Definition validate_face_quality (image : face_recognition.image)
  : io face_recognition.call (bool * string) :=
  try_except
    (face_locations <<- face_recognition.face_locations image ;;
     match face_locations with
     | [] => io_ret (false, "No face detected in the image"%string)
     | (top, right_, bottom, left_) :: _ =>
         let face_width := (right_ - left_)%Z in
         let face_height := (bottom - top)%Z in
         if (face_width <? 50)%Z || (face_height <? 50)%Z
         then io_ret (false,
                "Face is too small. Please move closer to the camera"%string)
         else
           encodings <<- face_recognition.face_encodings image ;;
           match encodings with
           | [] => io_ret (false, "Could not process face features"%string)
           | _ :: _ => io_ret (true, "Face detected successfully"%string)
           end
     end)
    (fun e => io_ret (false, ("Face validation error: " ++ str_exn e)%string)).

End FaceService.

(** ** [LivenessDetector]: blink detection over a frame sequence *)

Module LivenessDetector.

(** A landmark point [(x, y)] in pixel coordinates. *)
Definition point : Type := Z * Z.

(** A face region found by the detector on a frame, with the landmarks
    the shape predictor returns for it ([shape.part(i)]). *)
Record face : Type := Face {
  width : Z;
  height : Z;
  part : nat -> point
}.

(** A frame is represented by the faces the detector finds on it, in
    the detector's order. *)
Definition frame : Type := list face.

(** The fields of a detector instance. *)
Record t : Type := Detector {
  predictor_loaded : bool;
  blink_counter : Z;
  frame_counter : Z
}.

Definition LEFT_EYE_INDICES : list nat := seq 36 6.
Definition RIGHT_EYE_INDICES : list nat := seq 42 6.

Definition EAR_THRESHOLD : R := 25 / 100.
Definition CONSECUTIVE_FRAMES : Z := 2.

(** [scipy.spatial.distance.euclidean] on two points. *)
Definition euclidean (u v : point) : R :=
  sqrt ((IZR (fst u) - IZR (fst v)) * (IZR (fst u) - IZR (fst v))
        + (IZR (snd u) - IZR (snd v)) * (IZR (snd u) - IZR (snd v))).

(** [eye_points[i]] *)
Definition getitem (eye_points : list point) (i : nat) : outcome point :=
  match nth_error eye_points i with
  | Some p => Return p
  | None => Raise (IndexError "index out of bounds")
  end.

(** Division, failing on a zero divisor. *)
Definition true_divide (x y : R) : outcome R :=
  if Req_dec_T y 0 then Raise (ZeroDivisionError "float division by zero")
  else Return (x / y).

Definition _eye_aspect_ratio (eye_points : list point) : outcome R :=
  p1 <- getitem eye_points 1 ;;
  p5 <- getitem eye_points 5 ;;
  let A := euclidean p1 p5 in
  p2 <- getitem eye_points 2 ;;
  p4 <- getitem eye_points 4 ;;
  let B := euclidean p2 p4 in
  p0 <- getitem eye_points 0 ;;
  p3 <- getitem eye_points 3 ;;
  let C := euclidean p0 p3 in
  if Rltb 0 C then true_divide (A + B) (2 * C) else Return 0.

Definition _get_eye_points (shape : nat -> point) (indices : list nat)
  : list point :=
  map shape indices.

(** [max(faces, key=lambda f: f.width() * f.height())] on a non-empty
    list: the first face of maximal area. *)
Definition area (f : face) : Z := (width f * height f)%Z.

Definition largest_face (f0 : face) (faces : list face) : face :=
  fold_left (fun best f => if (area best <? area f)%Z then f else best)
    faces f0.

Definition detect_blink (self : t) (fr : frame) : outcome (bool * R) :=
  if negb (predictor_loaded self) then Return (false, 3 / 10)
  else
    match fr with
    | [] => Return (false, 0)
    | f0 :: faces =>
        let fc := largest_face f0 faces in
        let shape := part fc in
        let left_eye := _get_eye_points shape LEFT_EYE_INDICES in
        let right_eye := _get_eye_points shape RIGHT_EYE_INDICES in
        left_ear <- _eye_aspect_ratio left_eye ;;
        right_ear <- _eye_aspect_ratio right_eye ;;
        let avg_ear := (left_ear + right_ear) / 2 in
        let is_blinking := Rltb avg_ear EAR_THRESHOLD in
        Return (is_blinking, avg_ear)
    end.

(** The [for frame in frames] loop of [check_liveness], from the state
    [(consecutive_closed, was_open)]; the result is [blink_detected].
    Every frame handed to [detect_blink] is recorded. *)
Fixpoint scan_frames (self : t) (frames : list frame)
    (consecutive_closed : Z) (was_open : bool) : io frame bool :=
  match frames with
  | [] => io_ret false
  | fr :: rest =>
      r <<- io_call fr (detect_blink self fr) ;;
      let '(is_blinking, ear) := r in
      if negb is_blinking && Rltb 0 ear
      then scan_frames self rest 0%Z true
      else if is_blinking && was_open
      then
        let consecutive_closed := (consecutive_closed + 1)%Z in
        if (CONSECUTIVE_FRAMES <=? consecutive_closed)%Z
        then io_ret true
        else scan_frames self rest consecutive_closed was_open
      else scan_frames self rest consecutive_closed was_open
  end.

Definition check_liveness (self : t) (frames : list frame)
  : io frame (bool * string) :=
  if negb (predictor_loaded self)
  then io_ret (true, "Liveness check skipped (predictor not loaded)"%string)
  else if (List.length frames <? 5)%nat
  then io_ret (false, "Not enough frames for liveness check"%string)
  else
    blink_detected <<- scan_frames self frames 0%Z false ;;
    if blink_detected
    then io_ret (true, "Liveness verified (blink detected)"%string)
    else io_ret (false, "Liveness check failed (no blink detected)"%string).

End LivenessDetector.

(** ** [FaceService]: the methods in front of the image libraries *)

Module FaceServiceIO.

(** Besides calling a collaborator a method may print a line. *)
Inductive effect : Type :=
| Call (c : face_recognition.call)
| Print (line : string).

(** A computation that only calls collaborators, run where printing is
    possible too. *)
Definition lift_calls {A : Type} (m : io face_recognition.call A)
  : io effect A :=
  fun tr => let '(r, calls) := m [] in (r, tr ++ map Call calls).

Definition print (line : string) : io effect unit :=
  io_call (Print line) (Return tt).

(** [np.array(encodings[0], dtype=np.float32)] keeps the numbers, which
    are idealised as reals. *)
Definition generate_embedding (image : face_recognition.image)
  : io effect (option np.ndarray) :=
  try_except
    (encodings <<- lift_calls (face_recognition.face_encodings image) ;;
     match encodings with
     | e :: _ => io_ret (Some e)
     | [] => io_ret None
     end)
    (fun e =>
       _ <<- print ("Embedding generation error: " ++ str_exn e)%string ;;
       io_ret None).

(** [s.split(sep)] for a separator of one character. *)
Fixpoint split (sep : Ascii.ascii) (s : string) : list string :=
  match s with
  | EmptyString => [EmptyString]
  | String c rest =>
      if Ascii.eqb c sep then EmptyString :: split sep rest
      else match split sep rest with
           | h :: parts => String c h :: parts
           | [] => [String c EmptyString]
           end
  end.

(** [sep in s] *)
Fixpoint contains (sep : Ascii.ascii) (s : string) : bool :=
  match s with
  | EmptyString => false
  | String c rest => Ascii.eqb c sep || contains sep rest
  end.

(** The character [","], code 44, least significant bit first. *)
Definition comma : Ascii.ascii :=
  Ascii.Ascii false false true true false true false false.

Section Decode.

(** [base64.b64decode], and [Image.open] followed by the conversion to
    an RGB array: both belong to libraries and may raise. *)
Variable b64decode : string -> outcome (list Byte.byte).
Variable open_rgb : list Byte.byte -> outcome face_recognition.image.

Definition decode_base64_image (base64_string : string)
  : outcome face_recognition.image :=
  base64_string <-
    (if contains comma base64_string
     then match nth_error (split comma base64_string) 1 with
          | Some part => Return part
          | None => Raise (IndexError "list index out of range")
          end
     else Return base64_string) ;;
  image_bytes <- b64decode base64_string ;;
  open_rgb image_bytes.

End Decode.

End FaceServiceIO.

(** ** [routes/auth.py]: the authentication route

    The database session is represented by the rows of its two tables, in
    the order in which a query returns them.  What belongs to libraries is
    a variable of the section: the base64 and image decoders, the number a
    stored 32-bit pattern stands for, the clock, the token encoder and the
    formatting of the confidence. *)

Module auth.

Import FaceService FaceServiceIO.

Record User : Type := mkUser {
  id : Z;
  name : string;
  email : string;
  created_at : Z
}.

Record FaceEmbedding : Type := mkFaceEmbedding {
  emb_id : Z;
  emb_user_id : Z;
  embedding : list Byte.byte;
  emb_created_at : Z
}.

Record Session : Type := mkSession {
  users : list User;
  face_embeddings : list FaceEmbedding
}.

Record UserResponse : Type := mkUserResponse {
  resp_id : Z;
  resp_name : string;
  resp_email : string;
  resp_created_at : Z
}.

Record AuthResponse : Type := mkAuthResponse {
  success : bool;
  message : string;
  user : option UserResponse;
  access_token : option string;
  token_type : string
}.

(** [AuthResponse(success=..., message=...)] with the defaults of the
    other fields. *)
Definition failure (message : string) : AuthResponse :=
  mkAuthResponse false message None None "bearer".

(** [UserResponse.model_validate(user)] *)
Definition model_validate (u : User) : UserResponse :=
  mkUserResponse (id u) (name u) (email u) (created_at u).

(** A value of a token payload. *)
Inductive claim : Type :=
| IntClaim (z : Z)
| StrClaim (s : string)
| TimeClaim (t : Z).

Definition ACCESS_TOKEN_EXPIRE_MINUTES : Z := 60.

(** [to_encode.update({key: value})] on a dict kept as an association
    list in insertion order. *)
Fixpoint update (d : list (string * claim)) (key : string) (value : claim)
  : list (string * claim) :=
  match d with
  | [] => [(key, value)]
  | (k, v) :: rest =>
      if String.eqb k key then (k, value) :: rest
      else (k, v) :: update rest key value
  end.

(** [db.query(User).filter(User.id == user_id).first()] *)
Definition first_user (db : Session) (user_id : Z) : option User :=
  find (fun u => (id u =? user_id)%Z) (users db).

(** A list comprehension whose element expression may raise. *)
Fixpoint comprehension {A B : Type} (f : A -> outcome B) (l : list A)
  : outcome (list B) :=
  match l with
  | [] => Return []
  | a :: rest =>
      b <- f a ;;
      bs <- comprehension f rest ;;
      Return (b :: bs)
  end.

(** An outcome inside a computation with effects. *)
Definition io_lift {E A : Type} (r : outcome A) : io E A := fun tr => (r, tr).

Section Routes.

Variable b64decode : string -> outcome (list Byte.byte).
Variable open_rgb : list Byte.byte -> outcome face_recognition.image.
Variable float32_value : np.float32 -> R.
Variable utcnow : Z.
Variable jwt_encode : list (string * claim) -> outcome string.
Variable format_percent : R -> string.

(** Time and durations are counted in seconds; [None] is the default of
    [expires_delta].  In [expires_delta or timedelta(...)] a duration of
    zero counts as false. *)
Definition create_access_token (data : list (string * claim))
    (expires_delta : option Z) : outcome string :=
  let to_encode := data in
  let lifetime :=
    match expires_delta with
    | Some delta => if (delta =? 0)%Z
                    then (ACCESS_TOKEN_EXPIRE_MINUTES * 60)%Z
                    else delta
    | None => (ACCESS_TOKEN_EXPIRE_MINUTES * 60)%Z
    end in
  let expire := (utcnow + lifetime)%Z in
  let to_encode := update to_encode "exp" (TimeClaim expire) in
  jwt_encode to_encode.

Definition authenticate_user (face_image : string) (db : Session)
  : io effect AuthResponse :=
  try_except
    (image <<- io_lift (decode_base64_image b64decode open_rgb face_image) ;;
     query_embedding <<- generate_embedding image ;;
     match query_embedding with
     | None => io_ret (failure "No face detected in the image")
     | Some query_embedding =>
         let all_embeddings := face_embeddings db in
         match all_embeddings with
         | [] => io_ret (failure "No registered users found")
         | _ :: _ =>
             stored_embeddings <<- io_lift
               (comprehension
                  (fun emb =>
                     v <- bytes_to_embedding (embedding emb) ;;
                     Return (emb_id emb, emb_user_id emb, map float32_value v))
                  all_embeddings) ;;
             match_ <<- io_lift (find_match query_embedding stored_embeddings) ;;
             match match_ with
             | None =>
                 io_ret (failure "Face not recognized. Please register first.")
             | Some (_, user_id, similarity) =>
                 match first_user db user_id with
                 | None => io_ret (failure "User not found in database")
                 | Some u =>
                     access_token <<- io_lift
                       (create_access_token
                          [("user_id"%string, IntClaim (id u));
                           ("email"%string, StrClaim (email u))]
                          None) ;;
                     io_ret (mkAuthResponse true
                               ("Authentication successful (confidence: "
                                ++ format_percent similarity ++ ")")
                               (Some (model_validate u))
                               (Some access_token)
                               "bearer")
                 end
             end
         end
     end)
    (fun e => io_ret (failure ("Authentication error: " ++ str_exn e))).

End Routes.

(** ** The routes that write to the database

    What a route hands to the framework: a value, an [HTTPException]
    with its status code and detail, or any other exception.  The
    database calls themselves ([flush], [commit], [refresh]) are taken to
    succeed, and the clock does not advance during a request. *)

Inductive reply (A : Type) : Type :=
| Ok (a : A)
| HTTPException (status_code : Z) (detail : string)
| Unhandled (e : exn).

Arguments Ok {A} a.
Arguments HTTPException {A} status_code detail.
Arguments Unhandled {A} e.

Definition HTTP_400_BAD_REQUEST : Z := 400.
Definition HTTP_404_NOT_FOUND : Z := 404.

(** [str(n)] of a natural number, as an f-string prints it. *)
Definition str_nat (n : nat) : string :=
  DecimalString.NilEmpty.string_of_uint (Nat.to_uint n).

(** [db.query(User).filter(User.email == email).first()] *)
Definition first_user_by_email (db : Session) (email_ : string)
  : option User :=
  find (fun u => String.eqb (email u) email_) (users db).

Section Registration.

Variable b64decode : string -> outcome (list Byte.byte).
Variable open_rgb : list Byte.byte -> outcome face_recognition.image.

(** The 32-bit pattern of an element of a [float32] array. *)
Variable float32_bits : R -> np.float32.
Variable utcnow : Z.
Variable jwt_encode : list (string * claim) -> outcome string.

(** The primary keys the database assigns to the next row of each
    table. *)
Variable next_user_id : Session -> Z.
Variable next_embedding_id : Session -> Z.

(** The body of the loop of [register_user] on the image of index [i]:
    the embedding it appends, or the [HTTPException] that leaves the
    loop.  An [HTTPException] raised inside the [try] is re-raised as it
    is; any other exception becomes one. *)
Definition process_image (i : nat) (base64_image : string)
  : list effect -> reply np.ndarray * list effect :=
  fun tr =>
    let label := ("Image " ++ str_nat (i + 1) ++ ": ")%string in
    let body : io effect (reply np.ndarray) :=
      image <<- io_lift (decode_base64_image b64decode open_rgb base64_image) ;;
      quality <<- lift_calls (validate_face_quality image) ;;
      let '(is_valid, message) := quality in
      if negb is_valid
      then io_ret (HTTPException HTTP_400_BAD_REQUEST (label ++ message))
      else
        embedding <<- generate_embedding image ;;
        match embedding with
        | None =>
            io_ret (HTTPException HTTP_400_BAD_REQUEST
                      (label ++ "Could not generate face embedding"))
        | Some embedding => io_ret (Ok embedding)
        end in
    match body tr with
    | (Return r, tr') => (r, tr')
    | (Raise e, tr') =>
        (HTTPException HTTP_400_BAD_REQUEST
           (label ++ "Error processing image - " ++ str_exn e), tr')
    end.

(** [for i, base64_image in enumerate(request.face_images)], from index
    [i] on, with the embeddings collected so far. *)
Fixpoint process_images (i : nat) (face_images : list string)
    (embeddings : list np.ndarray)
  : list effect -> reply (list np.ndarray) * list effect :=
  fun tr =>
    match face_images with
    | [] => (Ok embeddings, tr)
    | base64_image :: rest =>
        match process_image i base64_image tr with
        | (Ok embedding, tr') =>
            process_images (S i) rest (embeddings ++ [embedding]) tr'
        | (HTTPException status_code detail, tr') =>
            (HTTPException status_code detail, tr')
        | (Unhandled e, tr') => (Unhandled e, tr')
        end
    end.

(** [db.add(user)] and [db.add(face_emb)], once flushed. *)
Definition add_user (db : Session) (u : User) : Session :=
  mkSession (users db ++ [u]) (face_embeddings db).

Definition add_embedding (user_id : Z) (db : Session)
    (embedding : np.ndarray) : Session :=
  mkSession (users db)
    (face_embeddings db ++
     [mkFaceEmbedding (next_embedding_id db) user_id
        (embedding_to_bytes (map float32_bits embedding)) utcnow]).

Definition register_user (name_ email_ : string) (face_images : list string)
    (db : Session) : reply AuthResponse * Session * list effect :=
  match first_user_by_email db email_ with
  | Some _ =>
      (HTTPException HTTP_400_BAD_REQUEST
         "User with this email already exists", db, [])
  | None =>
      if (List.length face_images <? 3)%nat
      then (HTTPException HTTP_400_BAD_REQUEST
              "At least 3 face images are required for registration", db, [])
      else if (10 <? List.length face_images)%nat
      then (HTTPException HTTP_400_BAD_REQUEST
              "Maximum 10 face images allowed", db, [])
      else
        match process_images 0 face_images [] [] with
        | (Ok embeddings, tr) =>
            let user_ := mkUser (next_user_id db) name_ email_ utcnow in
            let db := add_user db user_ in
            let db := fold_left (add_embedding (id user_)) embeddings db in
            match create_access_token utcnow jwt_encode
                    [("user_id"%string, IntClaim (id user_));
                     ("email"%string, StrClaim (email user_))] None with
            | Return access_token =>
                (Ok (mkAuthResponse true
                       ("User registered successfully with "
                        ++ str_nat (List.length embeddings) ++ " face images")
                       (Some (model_validate user_))
                       (Some access_token)
                       "bearer"), db, tr)
            | Raise e => (Unhandled e, db, tr)
            end
        | (HTTPException status_code detail, tr) =>
            (HTTPException status_code detail, db, tr)
        | (Unhandled e, tr) => (Unhandled e, db, tr)
        end
  end.

End Registration.

(** [db.delete(user)] with the cascade of [User.embeddings]: the rows of
    the user's embeddings go with the row of the user. *)
Definition delete (db : Session) (u : User) : Session :=
  mkSession
    (filter (fun u' => negb (id u' =? id u)%Z) (users db))
    (filter (fun e => negb (emb_user_id e =? id u)%Z) (face_embeddings db)).

Definition delete_user (user_id : Z) (db : Session)
  : reply (bool * string) * Session :=
  match first_user db user_id with
  | None => (HTTPException HTTP_404_NOT_FOUND "User not found", db)
  | Some user_ =>
      let db := delete db user_ in
      (Ok (true, ("User " ++ name user_ ++ " deleted successfully")%string), db)
  end.

End auth.

(** * Properties *)

Import FaceService LivenessDetector.

(** ** Vocabulary of the statements *)

Import face_recognition.

(** Shapes numpy accepts for [a - b]: equal lengths, or one operand of
    a single element. *)
Definition broadcastable (a b : np.ndarray) : Prop :=
  List.length a = List.length b \/ List.length a = 1%nat \/ List.length b = 1%nat.

(** The distance [calculate_distance] returns, where it returns one. *)
Definition distance_of (q v : np.ndarray) : R :=
  match calculate_distance q v with
  | Return d => d
  | Raise _ => 0
  end.

(** Every stored vector can be subtracted from the query; in particular
    when all have the query's dimensionality. *)
Definition comparable (q : np.ndarray) (cs : list stored) : Prop :=
  Forall (fun c => broadcastable q (snd c)) cs.

(** A candidate together with its distance to the query, as the loop
    stores it in [best_match], and one iteration of the loop on it. *)
Definition dist (m : Z * Z * R) : R := snd m.

Definition measure (q : np.ndarray) (c : stored) : Z * Z * R :=
  (fst (fst c), snd (fst c), distance_of q (snd c)).

Definition scan_step (st : scan) (m : Z * Z * R) : scan :=
  if pyfloat_lt (Fin (dist m)) (best_distance st)
  then Scan (Some m) (Fin (dist m))
  else st.

(** The property as the specification words it: comparing vectors of
    different dimensionality never lets an exception escape. *)
Definition mismatch_is_contained (a b : np.ndarray) : Prop :=
  List.length a <> List.length b ->
  ~ raises (calculate_distance a b) /\
  ~ raises (calculate_similarity a b) /\
  forall emb_id user_id, ~ raises (find_match a [(emb_id, user_id, b)]).

(** The property as the specification words it: fewer than five frames
    always give the insufficient-frames failure, whatever the state of the
    detector. *)
Definition few_frames_fail (self : t) (frames : list frame) : Prop :=
  (List.length frames < 5)%nat ->
  fst (run (check_liveness self frames))
  = Return (false, "Not enough frames for liveness check"%string).

(** What [detect_blink] says of a frame: eyes open (not blinking, with a
    positive average ratio), or blinking. *)
Definition eyes_open (self : t) (fr : frame) : Prop :=
  exists ear, detect_blink self fr = Return (false, ear) /\ 0 < ear.

(** [detect_blink] reports a blink: the average ratio is below the
    threshold. *)
Definition eyes_blinking (self : t) (fr : frame) : Prop :=
  exists ear, detect_blink self fr = Return (true, ear).

(** The scan is armed when an open frame has been seen or is still to
    come in the frames ahead. *)
Definition armed (self : t) (w : bool) (ahead : list frame) : Prop :=
  w = true \/ Exists (eyes_open self) ahead.

(** Sample landmark geometry: an open eye, 4 pixels wide and 2 high, and
    a closed one; a face carries the same six points for both eyes. *)
Definition open_eye : list point :=
  [(0, 0); (1, 1); (3, 1); (4, 0); (3, -1); (1, -1)]%Z.

Definition closed_eye : list point :=
  [(0, 0); (1, 0); (3, 0); (4, 0); (3, 0); (1, 0)]%Z.

Definition shape_of (eye : list point) (i : nat) : point :=
  nth (i mod 6) eye (0, 0)%Z.

Definition open_frame : frame := [Face 100 100 (shape_of open_eye)].

Definition closed_frame : frame := [Face 100 100 (shape_of closed_eye)].

Definition loaded : t := Detector true 0 0.

(** ** Vocabulary of the further properties *)

Import FaceServiceIO.

(** The [ValueError] of [np.frombuffer] on a buffer whose size is not a
    multiple of the element size. *)
Definition size_error : exn :=
  ValueError "buffer size must be a multiple of element size".

(** Moving every landmark by the same offset, and enlarging the picture
    by a whole factor. *)
Definition translate (dx dy : Z) (p : point) : point :=
  (fst p + dx, snd p + dy)%Z.


(** The frames show a blink: after some open frame come two blinking
    frames with no open frame between them. *)
Definition blink_pattern (self : t) (frames : list frame) : Prop :=
  exists l1 b1 l2 b2 l3,
    frames = l1 ++ b1 :: l2 ++ b2 :: l3 /\
    Exists (eyes_open self) l1 /\
    eyes_blinking self b1 /\
    Forall (fun f => ~ eyes_open self f) l2 /\
    eyes_blinking self b2.

(** The same seen from the loop state [(consecutive_closed, was_open)]:
    either one blinking frame is already counted and a second one follows
    before any open frame, or the whole pattern is still ahead. *)
Definition pending_pattern (self : t) (c : Z) (w : bool)
    (frames : list frame) : Prop :=
  ((1 <= c)%Z /\
   exists l2 b2 l3,
     frames = l2 ++ b2 :: l3 /\
     Forall (fun f => ~ eyes_open self f) l2 /\
     eyes_blinking self b2)
  \/
  (exists l1 b1 l2 b2 l3,
     frames = l1 ++ b1 :: l2 ++ b2 :: l3 /\
     armed self w l1 /\
     eyes_blinking self b1 /\
     Forall (fun f => ~ eyes_open self f) l2 /\
     eyes_blinking self b2).

(** What [generate_embedding] returns on an image, and what it does. *)
Definition embedding_of (image : face_recognition.image) : option np.ndarray :=
  match encodings_of image with
  | Return (e :: _) => Some e
  | _ => None
  end.

Definition generate_effects (image : face_recognition.image) : list effect :=
  Call FaceEncodings ::
  match encodings_of image with
  | Raise e => [Print ("Embedding generation error: " ++ str_exn e)%string]
  | Return _ => []
  end.

(** A stored row as [authenticate_user] hands it to [find_match], given
    the number each stored pattern stands for. *)
Definition decode_stored (float32_value : np.float32 -> R)
    (emb : auth.FaceEmbedding) : outcome (Z * Z * list R) :=
  v <- bytes_to_embedding (auth.embedding emb) ;;
  Return (auth.emb_id emb, auth.emb_user_id emb, map float32_value v).

(** The token the routes issue for a user. *)
Definition token_of (utcnow : Z)
    (jwt_encode : list (string * auth.claim) -> outcome string)
    (u : auth.User) : outcome string :=
  auth.create_access_token utcnow jwt_encode
    [("user_id"%string, auth.IntClaim (auth.id u));
     ("email"%string, auth.StrClaim (auth.email u))] None.

(** A small deployment on which the route can be run: every request
    decodes to [sample_image], whose only face has the embedding
    [sample_query]. *)
Definition sample_query : np.ndarray := [0; 0].

Definition sample_image : face_recognition.image :=
  Image (Return []) (Return [sample_query]).

Definition sample_b64decode (s : string) : outcome (list Byte.byte) :=
  Return [].

Definition sample_open_rgb (data : list Byte.byte)
  : outcome face_recognition.image :=
  Return sample_image.

Definition sample_value (w : np.float32) : R := 0.

Definition sample_jwt_encode (payload : list (string * auth.claim))
  : outcome string :=
  Return "token"%string.

Definition sample_format (similarity : R) : string := "100.00%".

Definition sample_user : auth.User :=
  auth.mkUser 10 "Ada" "ada@example.org" 0.

Definition zero_bytes (n : nat) : list Byte.byte := repeat Byte.x00 n.

Definition sample_row (n : nat) : auth.FaceEmbedding :=
  auth.mkFaceEmbedding 1 10 (zero_bytes n) 0.

Definition sample_db (n : nat) : auth.Session :=
  auth.mkSession [sample_user] [sample_row n].

Definition sample_authenticate (db : auth.Session)
  : io effect auth.AuthResponse :=
  auth.authenticate_user sample_b64decode sample_open_rgb sample_value 0
    sample_jwt_encode sample_format "" db.

Definition sample_response : auth.AuthResponse :=
  auth.mkAuthResponse true "Authentication successful (confidence: 100.00%)"
    (Some (auth.model_validate sample_user)) (Some "token"%string) "bearer".

(** Every embedding row belongs to a user of the database. *)
Definition referential_integrity (db : auth.Session) : Prop :=
  forall e, In e (auth.face_embeddings db) ->
  exists u, In u (auth.users db) /\ auth.id u = auth.emb_user_id e.

(** The label [register_user] puts in front of the detail of an error on
    the image of index [i]. *)
Definition image_label (i : nat) : string :=
  ("Image " ++ auth.str_nat (i + 1) ++ ": ")%string.

(** The loop of [register_user] accepts the image [s] and appends the
    embedding [q] for it; what it does on [s], as calls and printed
    lines. *)
Definition accepted (b64decode : string -> outcome (list Byte.byte))
    (open_rgb : list Byte.byte -> outcome face_recognition.image)
    (s : string) (q : np.ndarray) : Prop :=
  fst (auth.process_image b64decode open_rgb 0 s []) = auth.Ok q.

Definition image_effects (b64decode : string -> outcome (list Byte.byte))
    (open_rgb : list Byte.byte -> outcome face_recognition.image)
    (s : string) : list effect :=
  snd (auth.process_image b64decode open_rgb 0 s []).

(** A deployment on which the routes run: every payload except ["bad"]
    decodes to [demo_image], which shows one face of 100 by 100 pixels
    with the embedding [sample_query]; ids are assigned in sequence. *)
Definition demo_image : face_recognition.image :=
  Image (Return [(0, 100, 100, 0)%Z]) (Return [sample_query]).

Definition demo_b64decode (s : string) : outcome (list Byte.byte) :=
  if String.eqb s "bad" then Raise (ValueError "Incorrect padding")
  else Return [].

Definition demo_open_rgb (data : list Byte.byte)
  : outcome face_recognition.image :=
  Return demo_image.

Definition demo_bits (x : R) : np.float32 := 0%Z.

Definition demo_next_user_id (db : auth.Session) : Z :=
  (1 + Z.of_nat (List.length (auth.users db)))%Z.

Definition demo_next_embedding_id (db : auth.Session) : Z :=
  (1 + Z.of_nat (List.length (auth.face_embeddings db)))%Z.

Definition demo_register (face_images : list string) (db : auth.Session)
  : auth.reply auth.AuthResponse * auth.Session * list effect :=
  auth.register_user demo_b64decode demo_open_rgb demo_bits 0
    sample_jwt_encode demo_next_user_id demo_next_embedding_id
    "Ada" "ada@example.org" face_images db.

Definition demo_authenticate (face_image : string) (db : auth.Session)
  : io effect auth.AuthResponse :=
  auth.authenticate_user demo_b64decode demo_open_rgb sample_value 0
    sample_jwt_encode sample_format face_image db.

Definition empty_db : auth.Session := auth.mkSession [] [].

Definition demo_user : auth.User := auth.mkUser 1 "Ada" "ada@example.org" 0.

Definition demo_row (k : Z) : auth.FaceEmbedding :=
  auth.mkFaceEmbedding k 1 (zero_bytes 8) 0.

Definition demo_db : auth.Session :=
  auth.mkSession [demo_user] [demo_row 1; demo_row 2; demo_row 3].

Definition demo_response : auth.AuthResponse :=
  auth.mkAuthResponse true "User registered successfully with 3 face images"
    (Some (auth.model_validate demo_user)) (Some "token"%string) "bearer".

Definition demo_image_trace : list effect :=
  [Call FaceLocations; Call FaceEncodings; Call FaceEncodings].

(** ** Comparisons *)

Lemma Rltb_true (x y : R) : Rltb x y = true <-> x < y.
Proof. unfold Rltb. destruct (Rlt_dec x y); split; intros; auto; discriminate. Qed.

Lemma Rltb_false (x y : R) : Rltb x y = false <-> y <= x.
Proof.
  unfold Rltb. destruct (Rlt_dec x y); split; intros; auto; try discriminate; lra.
Qed.

Lemma Rleb_true (x y : R) : Rleb x y = true <-> x <= y.
Proof. unfold Rleb. destruct (Rle_dec x y); split; intros; auto; discriminate. Qed.

Lemma Rleb_false (x y : R) : Rleb x y = false <-> y < x.
Proof.
  unfold Rleb. destruct (Rle_dec x y); split; intros; auto; try discriminate; lra.
Qed.

Lemma py_max_Rmax (a b : R) : py_max a b = Rmax a b.
Proof.
  unfold py_max, Rmax. destruct (Rltb a b) eqn:H.
  - apply Rltb_true in H. destruct (Rle_dec a b); [reflexivity | lra].
  - apply Rltb_false in H. destruct (Rle_dec a b); [lra | reflexivity].
Qed.

(** ** Shapes and broadcasting *)

Lemma subtract_same_length (a b : np.ndarray) :
  List.length a = List.length b -> np.subtract a b = Return (np.zip_sub a b).
Proof.
  intros H. unfold np.subtract. rewrite H, Nat.eqb_refl. reflexivity.
Qed.

Lemma subtract_broadcastable (a b : np.ndarray) :
  broadcastable a b -> exists d, np.subtract a b = Return d.
Proof.
  unfold broadcastable, np.subtract. intros H.
  destruct (Nat.eqb_spec (List.length a) (List.length b)) as [E | E].
  - eauto.
  - destruct a as [| x [| x' a']]; destruct b as [| y [| y' b']];
      simpl in *; eauto;
      destruct H as [H | [H | H]]; try congruence; try discriminate.
Qed.

Lemma subtract_mismatch (a b : np.ndarray) :
  List.length a <> List.length b ->
  List.length a <> 1%nat -> List.length b <> 1%nat ->
  np.subtract a b = Raise np.broadcast_error.
Proof.
  intros Hab Ha Hb. unfold np.subtract.
  destruct (Nat.eqb_spec (List.length a) (List.length b)) as [E | E];
    [contradiction |].
  destruct a as [| x [| x' a']]; destruct b as [| y [| y' b']];
    simpl in *; congruence.
Qed.

Lemma calculate_distance_mismatch (a b : np.ndarray) :
  List.length a <> List.length b ->
  List.length a <> 1%nat -> List.length b <> 1%nat ->
  calculate_distance a b = Raise np.broadcast_error.
Proof.
  intros. unfold calculate_distance. rewrite subtract_mismatch by assumption.
  reflexivity.
Qed.

Lemma calculate_distance_raise_inv (a b : np.ndarray) (e : exn) :
  calculate_distance a b = Raise e -> e = np.broadcast_error.
Proof.
  unfold calculate_distance, np.subtract.
  destruct (Nat.eqb (List.length a) (List.length b)); simpl; [discriminate |].
  destruct a as [| x [| x' a']]; destruct b as [| y [| y' b']]; simpl;
    congruence.
Qed.

Lemma find_match_loop_cons (q : np.ndarray) (emb_id user_id : Z)
    (v : np.ndarray) (rest : list stored) (st : scan) (d : R) :
  calculate_distance q v = Return d ->
  find_match_loop q ((emb_id, user_id, v) :: rest) st =
  if pyfloat_lt (Fin d) (best_distance st)
  then find_match_loop q rest (Scan (Some (emb_id, user_id, d)) (Fin d))
  else find_match_loop q rest st.
Proof. intros H. cbn [find_match_loop]. rewrite H. reflexivity. Qed.

Lemma find_match_loop_mismatch (q : np.ndarray) (cs : list stored) :
  forall st,
    Exists (fun c => calculate_distance q (snd c) = Raise np.broadcast_error) cs ->
    find_match_loop q cs st = Raise np.broadcast_error.
Proof.
  induction cs as [| [[emb_id user_id] v] rest IH]; intros st H.
  - inversion H.
  - destruct (calculate_distance q v) as [d | e] eqn:Hd.
    + erewrite find_match_loop_cons by eassumption.
      assert (Hrest : Exists
        (fun c => calculate_distance q (snd c) = Raise np.broadcast_error) rest).
      { inversion H; subst; [simpl in *; congruence | assumption]. }
      destruct (pyfloat_lt (Fin d) (best_distance st)); apply IH; assumption.
    + cbn [find_match_loop]. rewrite Hd. cbn [bind].
      f_equal. eapply calculate_distance_raise_inv; eassumption.
Qed.

(** ** The scan of [find_match] as a fold over measured candidates *)

Lemma calculate_distance_defined (q v : np.ndarray) :
  broadcastable q v -> calculate_distance q v = Return (distance_of q v).
Proof.
  intros H. unfold distance_of, calculate_distance.
  destruct (subtract_broadcastable H) as [d Hd]. rewrite Hd. reflexivity.
Qed.

Lemma find_match_loop_fold (q : np.ndarray) (cs : list stored) :
  comparable q cs ->
  forall st,
    find_match_loop q cs st = Return (fold_left scan_step (map (measure q) cs) st).
Proof.
  induction 1 as [| [[emb_id user_id] v] rest Hc _ IH]; intros st.
  - reflexivity.
  - simpl in Hc.
    erewrite find_match_loop_cons by (apply calculate_distance_defined; exact Hc).
    cbn [map fold_left]. unfold scan_step at 2, measure at 2, dist. cbn [fst snd].
    destruct (pyfloat_lt (Fin (distance_of q v)) (best_distance st));
      rewrite IH; reflexivity.
Qed.

(** While every scanned distance stays strictly above [d], so does the
    best distance. *)
Lemma scan_above (d : R) (ms : list (Z * Z * R)) :
  (forall m, In m ms -> d < dist m) ->
  forall st,
    pyfloat_lt (Fin d) (best_distance st) = true ->
    pyfloat_lt (Fin d) (best_distance (fold_left scan_step ms st)) = true.
Proof.
  induction ms as [| m ms IH]; intros Hall st Hst.
  - exact Hst.
  - cbn [fold_left]. apply IH.
    + intros m' Hm'. apply Hall. right. exact Hm'.
    + unfold scan_step.
      destruct (pyfloat_lt (Fin (dist m)) (best_distance st)).
      * cbn. apply Rltb_true. apply Hall. left. reflexivity.
      * exact Hst.
Qed.

(** Once the best distance is [d], candidates no closer than [d] leave the
    state alone. *)
Lemma scan_stable (c : Z * Z * R) (ms : list (Z * Z * R)) :
  (forall m, In m ms -> dist c <= dist m) ->
  fold_left scan_step ms (Scan (Some c) (Fin (dist c)))
  = Scan (Some c) (Fin (dist c)).
Proof.
  induction ms as [| m ms IH]; intros Hall.
  - reflexivity.
  - cbn [fold_left]. unfold scan_step at 2. cbn [best_distance pyfloat_lt].
    assert (H : Rltb (dist m) (dist c) = false).
    { apply Rltb_false. apply Hall. left. reflexivity. }
    rewrite H. apply IH. intros m' Hm'. apply Hall. right. exact Hm'.
Qed.

Lemma scan_first_minimum (pre post : list (Z * Z * R)) (c : Z * Z * R) :
  (forall m, In m pre -> dist c < dist m) ->
  (forall m, In m post -> dist c <= dist m) ->
  fold_left scan_step (pre ++ c :: post) scan_init
  = Scan (Some c) (Fin (dist c)).
Proof.
  intros Hpre Hpost. rewrite fold_left_app. cbn [fold_left].
  assert (H : pyfloat_lt (Fin (dist c))
                (best_distance (fold_left scan_step pre scan_init)) = true).
  { apply scan_above; [exact Hpre | reflexivity]. }
  unfold scan_step at 2. rewrite H. apply scan_stable. exact Hpost.
Qed.

(** Every non-empty list splits at the first place where the least value
    of a key is attained. *)
Lemma first_minimum_split (A : Type) (key : A -> R) (l : list A) :
  l <> [] ->
  exists pre c post,
    l = pre ++ c :: post /\
    (forall x, In x pre -> key c < key x) /\
    (forall x, In x post -> key c <= key x).
Proof.
  induction l as [| x rest IH]; intros Hne; [congruence |].
  destruct rest as [| y rest'].
  - exists [], x, []. repeat split; intros m [].
  - destruct IH as (pre & c & post & Heq & Hpre & Hpost); [discriminate |].
    destruct (Rle_dec (key x) (key c)) as [Hle | Hgt].
    + exists [], x, (y :: rest'). repeat split; [intros m [] |].
      intros m Hm. rewrite Heq in Hm. apply in_app_or in Hm.
      destruct Hm as [Hm | [Hm | Hm]].
      * specialize (Hpre m Hm). lra.
      * subst m. exact Hle.
      * specialize (Hpost m Hm). lra.
    + exists (x :: pre), c, post. rewrite Heq. repeat split.
      * intros m [Hm | Hm]; [subst m; lra | apply Hpre; exact Hm].
      * exact Hpost.
Qed.

(** The result of [find_match] on a list split at its first minimum. *)
Lemma find_match_split (q : np.ndarray) (pre post : list stored) (c : stored) :
  comparable q (pre ++ c :: post) ->
  (forall x, In x pre -> distance_of q (snd c) < distance_of q (snd x)) ->
  (forall x, In x post -> distance_of q (snd c) <= distance_of q (snd x)) ->
  find_match q (pre ++ c :: post) =
  Return (if Rleb (distance_of q (snd c)) DISTANCE_THRESHOLD
          then Some (fst (fst c), snd (fst c),
                     py_max 0 (1 - distance_of q (snd c)))
          else None).
Proof.
  intros Hcmp Hpre Hpost. unfold find_match.
  rewrite (find_match_loop_fold Hcmp). cbn [bind].
  rewrite map_app. cbn [map]. rewrite scan_first_minimum.
  - cbn [best_match best_distance pyfloat_le]. unfold measure, dist.
    cbn [fst snd]. destruct (Rleb (distance_of q (snd c)) DISTANCE_THRESHOLD);
      reflexivity.
  - intros m Hm. apply in_map_iff in Hm. destruct Hm as (x & <- & Hx).
    apply Hpre. exact Hx.
  - intros m Hm. apply in_map_iff in Hm. destruct Hm as (x & <- & Hx).
    apply Hpost. exact Hx.
Qed.

Lemma rleb_threshold_cases (d : R) (m : Z * Z * R) :
  (if Rleb d DISTANCE_THRESHOLD then Some m else None) <> None
  <-> d <= DISTANCE_THRESHOLD.
Proof.
  destruct (Rleb d DISTANCE_THRESHOLD) eqn:H; split; intros H'.
  - apply Rleb_true. exact H.
  - discriminate.
  - congruence.
  - apply Rleb_true in H'. congruence.
Qed.

Lemma distance_of_zero : distance_of [0] [0] = 0.
Proof.
  unfold distance_of, calculate_distance, np.subtract. cbn.
  unfold np.linalg_norm, np.dot. cbn.
  replace ((0 - 0) * (0 - 0) + 0) with 0 by ring. apply sqrt_0.
Qed.

(** ** The signature matcher *)

(** C1: for a query and stored records of comparable shape, [find_match]
    returns, and it returns a match exactly when the least distance over
    the candidates is at most the threshold 0.5 (the boundary included);
    when every candidate is farther than the threshold it returns [None],
    also for a non-empty list. *)
Theorem find_match_threshold (q : np.ndarray) (cs : list stored) :
  comparable q cs ->
  exists r,
    find_match q cs = Return r /\
    (r <> None <->
     exists c, In c cs /\
       (forall x, In x cs -> distance_of q (snd c) <= distance_of q (snd x)) /\
       distance_of q (snd c) <= 1 / 2) /\
    ((forall x, In x cs -> 1 / 2 < distance_of q (snd x)) -> r = None).
Proof.
  intros Hcmp. destruct cs as [| c0 rest].
  - exists None. split; [reflexivity |]. split.
    + split; [congruence | intros (c & [] & _)].
    + reflexivity.
  - destruct (@first_minimum_split stored
                (fun c => distance_of q (snd c)) (c0 :: rest))
      as (pre & c & post & Heq & Hpre & Hpost); [discriminate |].
    rewrite Heq in *. clear Heq.
    assert (Hmin : forall x, In x (pre ++ c :: post) ->
                     distance_of q (snd c) <= distance_of q (snd x)).
    { intros x Hx. apply in_app_or in Hx. destruct Hx as [Hx | [Hx | Hx]].
      - specialize (Hpre x Hx). cbn beta in Hpre. lra.
      - subst x. lra.
      - apply Hpost. exact Hx. }
    eexists. split; [apply find_match_split; assumption |]. split.
    + rewrite rleb_threshold_cases. fold DISTANCE_THRESHOLD. split.
      * intros Hle. exists c. split; [apply in_elt |]. split; assumption.
      * intros (c' & Hin & _ & Hle). specialize (Hmin c' Hin). lra.
    + intros Hfar. assert (H : In c (pre ++ c :: post)) by apply in_elt.
      specialize (Hfar c H).
      assert (Hb : Rleb (distance_of q (snd c)) DISTANCE_THRESHOLD = false).
      { apply Rleb_false. exact Hfar. }
      rewrite Hb. reflexivity.
Qed.

Lemma find_match_threshold_witness :
  exists r,
    find_match [0] [(1%Z, 10%Z, [0])] = Return r /\
    (r <> None <->
     exists c, In c [(1%Z, 10%Z, [0])] /\
       (forall x, In x [(1%Z, 10%Z, [0])] ->
          distance_of [0] (snd c) <= distance_of [0] (snd x)) /\
       distance_of [0] (snd c) <= 1 / 2) /\
    ((forall x, In x [(1%Z, 10%Z, [0])] -> 1 / 2 < distance_of [0] (snd x)) ->
     r = None).
Proof.
  apply (@find_match_threshold [0] [(1%Z, 10%Z, [0])]).
  constructor; [left; reflexivity | constructor].
Defined.

(** C7: when two (or more) stored records attain the least distance to
    the query, the scan keeps the one that comes first in the list, and
    that record is the one [find_match] returns (with its similarity) when
    the least distance is within the threshold.  [find_match] is a
    function of the query and the ordered list, so the result is
    determined by them. *)
Theorem find_match_tie_first (q : np.ndarray) (pre mid post : list stored)
    (c c' : stored) :
  let cs := pre ++ c :: mid ++ c' :: post in
  comparable q cs ->
  distance_of q (snd c') = distance_of q (snd c) ->
  (forall x, In x cs -> distance_of q (snd c) <= distance_of q (snd x)) ->
  (forall x, In x pre -> distance_of q (snd x) <> distance_of q (snd c)) ->
  find_match_loop q cs scan_init
    = Return (Scan (Some (measure q c)) (Fin (distance_of q (snd c)))) /\
  find_match q cs
    = Return (if Rleb (distance_of q (snd c)) (1 / 2)
              then Some (fst (fst c), snd (fst c),
                         py_max 0 (1 - distance_of q (snd c)))
              else None).
Proof.
  intros cs Hcmp Htie Hmin Hfirst. subst cs.
  assert (Hpre : forall x, In x pre ->
                   distance_of q (snd c) < distance_of q (snd x)).
  { intros x Hx. specialize (Hfirst x Hx).
    assert (H : In x (pre ++ c :: mid ++ c' :: post))
      by (apply in_or_app; left; exact Hx).
    specialize (Hmin x H). lra. }
  assert (Hpost : forall x, In x (mid ++ c' :: post) ->
                    distance_of q (snd c) <= distance_of q (snd x)).
  { intros x Hx. apply Hmin. apply in_or_app. right. right. exact Hx. }
  split.
  - rewrite (find_match_loop_fold Hcmp). rewrite map_app. cbn [map].
    rewrite scan_first_minimum; [reflexivity | |];
      intros m Hm; apply in_map_iff in Hm; destruct Hm as (x & <- & Hx);
      unfold measure, dist; cbn [snd]; auto.
  - apply find_match_split; assumption.
Qed.

Lemma find_match_tie_first_witness :
  find_match [0] [(1%Z, 10%Z, [0]); (2%Z, 11%Z, [0])]
  = Return (if Rleb (distance_of [0] [0]) (1 / 2)
            then Some (1%Z, 10%Z, py_max 0 (1 - distance_of [0] [0]))
            else None).
Proof.
  apply (@find_match_tie_first [0] [] [] [] (1%Z, 10%Z, [0]) (2%Z, 11%Z, [0])).
  - repeat constructor.
  - reflexivity.
  - intros x [Hx | [Hx | []]]; subst x; apply Rle_refl.
  - intros x [].
Defined.

Lemma distance_of_nonneg (a b : np.ndarray) : 0 <= distance_of a b.
Proof.
  unfold distance_of, calculate_distance.
  destruct (np.subtract a b); cbn; [apply sqrt_pos | lra].
Qed.

(** C8: for vectors of equal dimensionality the similarity is
    [max(0, 1 - distance)], it lies in [[0, 1]], and a greater distance
    never gives a greater similarity. *)
Theorem similarity_clipped_decreasing (a b : np.ndarray) :
  List.length a = List.length b ->
  exists d s,
    calculate_distance a b = Return d /\
    calculate_similarity a b = Return s /\
    s = Rmax 0 (1 - d) /\
    0 <= s <= 1 /\
    forall a' b' d' s',
      calculate_distance a' b' = Return d' ->
      calculate_similarity a' b' = Return s' ->
      d <= d' -> s' <= s.
Proof.
  intros Hlen.
  assert (Hd : calculate_distance a b = Return (distance_of a b))
    by (apply calculate_distance_defined; left; exact Hlen).
  pose proof (distance_of_nonneg a b) as Hpos.
  exists (distance_of a b), (py_max 0 (1 - distance_of a b)).
  split; [exact Hd |]. split; [unfold calculate_similarity; rewrite Hd; reflexivity |].
  rewrite py_max_Rmax. split; [reflexivity |]. split.
  - split; [apply Rmax_l |]. apply Rmax_lub; lra.
  - intros a' b' d' s' Hd' Hs' Hle.
    unfold calculate_similarity in Hs'. rewrite Hd' in Hs'. cbn [bind] in Hs'.
    injection Hs' as <-. rewrite py_max_Rmax.
    apply Rmax_lub.
    + apply Rmax_l.
    + eapply Rle_trans; [| apply Rmax_r]. lra.
Qed.

Lemma similarity_clipped_decreasing_witness :
  exists d s,
    calculate_distance [0] [0] = Return d /\
    calculate_similarity [0] [0] = Return s /\
    s = Rmax 0 (1 - d) /\
    0 <= s <= 1 /\
    forall a' b' d' s',
      calculate_distance a' b' = Return d' ->
      calculate_similarity a' b' = Return s' ->
      d <= d' -> s' <= s.
Proof.
  apply (@similarity_clipped_decreasing [0] [0]). reflexivity.
Defined.

(** ** Vectors of different dimensionality *)

(** C9, as stated, fails: a query of two components against a stored
    vector of three makes all three operations raise numpy's broadcasting
    [ValueError]. *)
Lemma mismatch_is_contained_counterexample :
  calculate_distance [0; 0] [0; 0; 0] = Raise np.broadcast_error /\
  calculate_similarity [0; 0] [0; 0; 0] = Raise np.broadcast_error /\
  find_match [0; 0] [(1%Z, 10%Z, [0; 0; 0])] = Raise np.broadcast_error /\
  ~ mismatch_is_contained [0; 0] [0; 0; 0].
Proof.
  repeat split; try reflexivity.
  intros H. destruct H as [H _]; [cbn; discriminate |].
  apply H. exact I.
Qed.

(** C9, amended: when the two lengths differ and neither is 1, the
    distance and the similarity raise numpy's broadcasting [ValueError],
    and so does [find_match] on every list that holds such a stored
    vector. *)
Theorem mismatch_raises (a b : np.ndarray) :
  List.length a <> List.length b ->
  List.length a <> 1%nat -> List.length b <> 1%nat ->
  calculate_distance a b = Raise np.broadcast_error /\
  calculate_similarity a b = Raise np.broadcast_error /\
  forall cs emb_id user_id,
    In (emb_id, user_id, b) cs -> find_match a cs = Raise np.broadcast_error.
Proof.
  intros Hab Ha Hb.
  assert (Hd : calculate_distance a b = Raise np.broadcast_error)
    by (apply calculate_distance_mismatch; assumption).
  split; [exact Hd |]. split.
  - unfold calculate_similarity. rewrite Hd. reflexivity.
  - intros cs emb_id user_id Hin. unfold find_match.
    rewrite find_match_loop_mismatch; [reflexivity |].
    apply Exists_exists. exists (emb_id, user_id, b). split; [exact Hin | exact Hd].
Qed.

Lemma mismatch_raises_witness :
  calculate_distance [0; 0] [0; 0; 0] = Raise np.broadcast_error /\
  calculate_similarity [0; 0] [0; 0; 0] = Raise np.broadcast_error /\
  forall cs emb_id user_id,
    In (emb_id, user_id, [0; 0; 0]) cs ->
    find_match [0; 0] cs = Raise np.broadcast_error.
Proof.
  apply (@mismatch_raises [0; 0] [0; 0; 0]); cbn; discriminate.
Defined.

(** A vector of one component is broadcast against the other, so such a
    comparison of different dimensionalities returns a distance. *)
Lemma broadcast_returns (x : R) (b : np.ndarray) :
  calculate_distance [x] b
  = Return (np.linalg_norm (if Nat.eqb 1 (List.length b)
                            then np.zip_sub [x] b
                            else map (fun y => x - y) b)).
Proof.
  unfold calculate_distance, np.subtract. cbn [List.length].
  destruct (Nat.eqb 1 (List.length b)); reflexivity.
Qed.

(** ** The embedding codec *)

Lemma Z_of_byte_of_Z (z : Z) : np.Z_of_byte (np.byte_of_Z z) = (z mod 256)%Z.
Proof.
  unfold np.Z_of_byte, np.byte_of_Z.
  assert (Hr : (0 <= z mod 256 < 256)%Z) by (apply Z.mod_pos_bound; lia).
  destruct (Byte.of_N (Z.to_N (z mod 256))) as [b |] eqn:E.
  - apply Byte.to_of_N in E. rewrite E. apply Z2N.id. lia.
  - apply Byte.of_N_None_iff in E. lia.
Qed.

Lemma item_of_item_bytes (w : np.float32) :
  np.is_float32 w ->
  np.item_of_bytes (np.byte_of_Z w) (np.byte_of_Z (Z.shiftr w 8))
    (np.byte_of_Z (Z.shiftr w 16)) (np.byte_of_Z (Z.shiftr w 24)) = w.
Proof.
  unfold np.is_float32. intros Hw. unfold np.item_of_bytes.
  rewrite !Z_of_byte_of_Z. change 256%Z with (2 ^ 8)%Z.
  rewrite <- (Z.mod_small w (2 ^ 32)) at 5 by exact Hw.
  apply Z.bits_inj'. intros n Hn.
  rewrite !Z.lor_spec, !Z.shiftl_spec, !Z.testbit_mod_pow2 by lia.
  assert (T : forall k, (0 <= k)%Z ->
            Z.testbit (Z.shiftr w k) (n - k)
            = if (k <=? n)%Z then Z.testbit w n else false).
  { intros k Hk. destruct (Z.leb_spec k n).
    - rewrite Z.shiftr_spec by lia. f_equal. lia.
    - apply Z.testbit_neg_r. lia. }
  rewrite !T by lia. clear T.
  repeat (match goal with
          | |- context [(?a <? ?b)%Z] => destruct (Z.ltb_spec a b)
          | |- context [(?a <=? ?b)%Z] => destruct (Z.leb_spec a b)
          end; try lia);
    destruct (Z.testbit w n); reflexivity.
Qed.

Lemma frombuffer_tobytes (v : list np.float32) :
  Forall np.is_float32 v -> np.frombuffer (np.tobytes v) = Return v.
Proof.
  induction 1 as [| w v Hw _ IH].
  - reflexivity.
  - unfold np.tobytes in *. cbn [flat_map np.item_bytes app np.frombuffer].
    rewrite IH. cbn [bind]. rewrite item_of_item_bytes by exact Hw.
    reflexivity.
Qed.

(** C5: decoding the encoding of a vector of finite 32-bit floats gives
    back the same vector, bit pattern for bit pattern. *)
Theorem codec_roundtrip (v : list np.float32) :
  Forall np.finite32 v ->
  bytes_to_embedding (embedding_to_bytes v) = Return v.
Proof.
  intros Hv. unfold bytes_to_embedding, embedding_to_bytes.
  apply frombuffer_tobytes.
  eapply Forall_impl; [| exact Hv]. intros w [Hw _]. exact Hw.
Qed.

(** The patterns of [1.0], [-2.5] and [0.0]. *)
Lemma codec_roundtrip_witness :
  bytes_to_embedding (embedding_to_bytes [1065353216; 3223322624; 0]%Z)
  = Return [1065353216; 3223322624; 0]%Z.
Proof.
  apply (@codec_roundtrip [1065353216; 3223322624; 0]%Z).
  repeat constructor; unfold np.is_float32; try lia;
    vm_compute; discriminate.
Defined.

(** ** The eye aspect ratio *)

Lemma euclidean_nonneg (u v : point) : 0 <= euclidean u v.
Proof. unfold euclidean. apply sqrt_pos. Qed.

Lemma euclidean_same (u : point) : euclidean u u = 0.
Proof.
  unfold euclidean.
  replace ((IZR (fst u) - IZR (fst u)) * (IZR (fst u) - IZR (fst u)) +
           (IZR (snd u) - IZR (snd u)) * (IZR (snd u) - IZR (snd u)))
    with 0 by ring.
  apply sqrt_0.
Qed.

Lemma true_divide_returns (x y : R) : 0 < y -> true_divide x (2 * y) = Return (x / (2 * y)).
Proof.
  intros Hy. unfold true_divide.
  destruct (Req_dec_T (2 * y) 0) as [E | _]; [lra | reflexivity].
Qed.

(** On six points the ratio is computed without an index error and with
    no division by zero. *)
Lemma eye_aspect_ratio_six (p0 p1 p2 p3 p4 p5 : point) :
  _eye_aspect_ratio [p0; p1; p2; p3; p4; p5]
  = Return (if Rltb 0 (euclidean p0 p3)
            then (euclidean p1 p5 + euclidean p2 p4) / (2 * euclidean p0 p3)
            else 0).
Proof.
  unfold _eye_aspect_ratio, getitem. cbn [nth_error bind].
  destruct (Rltb 0 (euclidean p0 p3)) eqn:H; [| reflexivity].
  apply true_divide_returns. apply Rltb_true. exact H.
Qed.

(** C10: on six eye landmarks the eye aspect ratio always returns a
    value and never divides by zero; when the horizontal distance between
    the first and the fourth landmark is zero, the value is 0. *)
Theorem eye_aspect_ratio_total (eye_points : list point) :
  List.length eye_points = 6%nat ->
  exists ear,
    _eye_aspect_ratio eye_points = Return ear /\
    forall p1 p4,
      nth_error eye_points 0 = Some p1 -> nth_error eye_points 3 = Some p4 ->
      euclidean p1 p4 = 0 -> ear = 0.
Proof.
  intros Hlen.
  destruct eye_points as [| p0 [| p1 [| p2 [| p3 [| p4 [| p5 [| p6 l]]]]]]];
    try discriminate.
  eexists. split; [apply eye_aspect_ratio_six |].
  intros q1 q4 H0 H3 Hz. cbn in H0, H3. injection H0 as <-. injection H3 as <-.
  rewrite Hz. replace (Rltb 0 0) with false; [reflexivity |].
  symmetry. apply Rltb_false. lra.
Qed.

(** Both outer corners at the same pixel. *)
Lemma eye_aspect_ratio_total_witness :
  exists ear,
    _eye_aspect_ratio
      [(3, 4); (5, 6); (7, 6); (3, 4); (7, 2); (5, 2)]%Z = Return ear /\
    forall p1 p4,
      nth_error [(3, 4); (5, 6); (7, 6); (3, 4); (7, 2); (5, 2)]%Z 0 = Some p1 ->
      nth_error [(3, 4); (5, 6); (7, 6); (3, 4); (7, 2); (5, 2)]%Z 3 = Some p4 ->
      euclidean p1 p4 = 0 -> ear = 0.
Proof.
  apply (@eye_aspect_ratio_total
           [(3, 4); (5, 6); (7, 6); (3, 4); (7, 2); (5, 2)]%Z).
  reflexivity.
Defined.

(** ** The quality gate *)

(** C6: the checks of [validate_face_quality] run in order and the first
    failure wins.  No detected face is reported after the detector call
    alone; a first face narrower or lower than 50 pixels is reported, again
    before the extractor is called; only then is a missing encoding
    reported; and every path returns a flag with a message. *)
Theorem validate_face_quality_order (img : image) :
  (locations_of img = Return [] ->
   run (validate_face_quality img)
   = (Return (false, "No face detected in the image"%string), [FaceLocations]))
  /\
  (forall top right_ bottom left_ others,
     locations_of img = Return ((top, right_, bottom, left_) :: others) ->
     (right_ - left_ < 50 \/ bottom - top < 50)%Z ->
     run (validate_face_quality img)
     = (Return (false,
          "Face is too small. Please move closer to the camera"%string),
        [FaceLocations]))
  /\
  (forall top right_ bottom left_ others,
     locations_of img = Return ((top, right_, bottom, left_) :: others) ->
     (50 <= right_ - left_)%Z -> (50 <= bottom - top)%Z ->
     (encodings_of img = Return [] ->
      run (validate_face_quality img)
      = (Return (false, "Could not process face features"%string),
         [FaceLocations; FaceEncodings])) /\
     (forall e es,
        encodings_of img = Return (e :: es) ->
        run (validate_face_quality img)
        = (Return (true, "Face detected successfully"%string),
           [FaceLocations; FaceEncodings])))
  /\
  (exists flag message calls,
     run (validate_face_quality img) = (Return (flag, message), calls)).
Proof.
  unfold run, validate_face_quality, try_except, io_bind,
    face_locations, face_encodings, io_call, io_ret.
  cbn [app]. split; [| split; [| split]].
  - intros H. rewrite H. reflexivity.
  - intros top right_ bottom left_ others H Hsmall. rewrite H.
    assert (Hb : ((right_ - left_ <? 50)%Z || (bottom - top <? 50)%Z) = true).
    { apply orb_true_iff. destruct Hsmall; [left | right];
        apply Z.ltb_lt; assumption. }
    rewrite Hb. reflexivity.
  - intros top right_ bottom left_ others H Hw Hh. rewrite H.
    assert (Hb : ((right_ - left_ <? 50)%Z || (bottom - top <? 50)%Z) = false).
    { apply orb_false_iff. split; apply Z.ltb_ge; assumption. }
    rewrite Hb. cbn [app]. split.
    + intros He. rewrite He. reflexivity.
    + intros e es He. rewrite He. reflexivity.
  - destruct (locations_of img) as [[| [[[top right_] bottom] left_] others] | e];
      [eauto | | eauto].
    destruct ((right_ - left_ <? 50)%Z || (bottom - top <? 50)%Z); [eauto |].
    cbn [app]. destruct (encodings_of img) as [[| e es] | e]; eauto.
Qed.

(** No face; a 40 by 100 face; a 100 by 100 face without and with an
    encoding. *)
Lemma validate_face_quality_order_witness :
  run (validate_face_quality (Image (Return []) (Return [[0]])))
  = (Return (false, "No face detected in the image"%string), [FaceLocations])
  /\
  run (validate_face_quality
         (Image (Return [(0, 40, 100, 0)%Z]) (Return [[0]])))
  = (Return (false,
       "Face is too small. Please move closer to the camera"%string),
     [FaceLocations])
  /\
  run (validate_face_quality
         (Image (Return [(0, 100, 100, 0)%Z]) (Return [])))
  = (Return (false, "Could not process face features"%string),
     [FaceLocations; FaceEncodings])
  /\
  run (validate_face_quality
         (Image (Return [(0, 100, 100, 0)%Z]) (Return [[0]])))
  = (Return (true, "Face detected successfully"%string),
     [FaceLocations; FaceEncodings]).
Proof.
  split; [| split; [| split]].
  - apply (proj1 (validate_face_quality_order
                    (Image (Return []) (Return [[0]])))).
    reflexivity.
  - apply (proj1 (proj2 (validate_face_quality_order
                    (Image (Return [(0, 40, 100, 0)%Z]) (Return [[0]]))))
             0%Z 40%Z 100%Z 0%Z []); [reflexivity | left; lia].
  - apply (proj1 (proj1 (proj2 (proj2 (validate_face_quality_order
                    (Image (Return [(0, 100, 100, 0)%Z]) (Return [])))))
             0%Z 100%Z 100%Z 0%Z [] eq_refl ltac:(lia) ltac:(lia))).
    reflexivity.
  - apply (proj2 (proj1 (proj2 (proj2 (validate_face_quality_order
                    (Image (Return [(0, 100, 100, 0)%Z]) (Return [[0]])))))
             0%Z 100%Z 100%Z 0%Z [] eq_refl ltac:(lia) ltac:(lia)) [0] []).
    reflexivity.
Defined.

(** ** The liveness verifier *)

(** C4: without the landmark predictor, [check_liveness] reports a live
    subject with the diagnostic message for every frame sequence, and
    looks at no frame. *)
Theorem check_liveness_degraded (self : t) (frames : list frame) :
  predictor_loaded self = false ->
  run (check_liveness self frames)
  = (Return (true, "Liveness check skipped (predictor not loaded)"%string), []).
Proof.
  intros H. unfold run, check_liveness. rewrite H. reflexivity.
Qed.

Lemma check_liveness_degraded_witness :
  run (check_liveness (Detector false 0 0) [[]; []; []])
  = (Return (true, "Liveness check skipped (predictor not loaded)"%string), []).
Proof.
  apply (@check_liveness_degraded (Detector false 0 0) [[]; []; []]).
  reflexivity.
Defined.

(** C3, as stated, fails: a detector without predictor passes a sequence
    of four frames. *)
Lemma few_frames_fail_counterexample :
  run (check_liveness (Detector false 0 0) [[]; []; []; []])
  = (Return (true, "Liveness check skipped (predictor not loaded)"%string), [])
  /\ ~ few_frames_fail (Detector false 0 0) [[]; []; []; []].
Proof.
  split; [reflexivity |].
  intros H. unfold few_frames_fail in H.
  assert (Hlen : (List.length ([[]; []; []; []] : list frame) < 5)%nat)
    by (cbn; lia).
  specialize (H Hlen). cbn in H. discriminate.
Qed.

(** C3, amended: with the landmark predictor loaded, every sequence of
    fewer than five frames fails with the insufficient-frames message,
    whatever the frames hold, and no frame is looked at. *)
Theorem check_liveness_few_frames (self : t) (frames : list frame) :
  predictor_loaded self = true ->
  (List.length frames < 5)%nat ->
  run (check_liveness self frames)
  = (Return (false, "Not enough frames for liveness check"%string), []).
Proof.
  intros Hp Hlen. unfold run, check_liveness. rewrite Hp. cbn [negb].
  apply Nat.ltb_lt in Hlen. rewrite Hlen. reflexivity.
Qed.

Lemma check_liveness_few_frames_witness :
  run (check_liveness (Detector true 0 0) [[]; []; []; []])
  = (Return (false, "Not enough frames for liveness check"%string), []).
Proof.
  apply (@check_liveness_few_frames (Detector true 0 0) [[]; []; []; []]).
  - reflexivity.
  - cbn. lia.
Defined.

(** *** Blink detection over the frames *)

Lemma detect_blink_returns (self : t) (fr : frame) :
  exists is_blinking ear, detect_blink self fr = Return (is_blinking, ear).
Proof.
  unfold detect_blink. destruct (predictor_loaded self); cbn [negb]; [| eauto].
  destruct fr as [| f0 faces]; [eauto |].
  unfold _get_eye_points, LEFT_EYE_INDICES, RIGHT_EYE_INDICES. cbn [seq map].
  rewrite !eye_aspect_ratio_six. cbn [bind]. eauto.
Qed.

Lemma scan_frames_cons (self : t) (fr : frame) (rest : list frame)
    (c : Z) (w : bool) (tr : list frame) (is_blinking : bool) (ear : R) :
  detect_blink self fr = Return (is_blinking, ear) ->
  scan_frames self (fr :: rest) c w tr =
  (if negb is_blinking && Rltb 0 ear
   then scan_frames self rest 0%Z true
   else if is_blinking && w
   then if (CONSECUTIVE_FRAMES <=? c + 1)%Z
        then io_ret true
        else scan_frames self rest (c + 1)%Z w
   else scan_frames self rest c w) (tr ++ [fr]).
Proof.
  intros H. cbn [scan_frames]. unfold io_bind, io_call. rewrite H. reflexivity.
Qed.

Lemma scan_frames_open (self : t) (fr : frame) (rest : list frame)
    (c : Z) (w : bool) (tr : list frame) :
  eyes_open self fr ->
  scan_frames self (fr :: rest) c w tr
  = scan_frames self rest 0%Z true (tr ++ [fr]).
Proof.
  intros (ear & H & Hpos). erewrite scan_frames_cons by exact H.
  cbn [negb andb]. apply Rltb_true in Hpos. rewrite Hpos. reflexivity.
Qed.

Lemma scan_frames_blinking (self : t) (fr : frame) (rest : list frame)
    (c : Z) (tr : list frame) :
  eyes_blinking self fr ->
  scan_frames self (fr :: rest) c true tr
  = (if (CONSECUTIVE_FRAMES <=? c + 1)%Z
     then io_ret true
     else scan_frames self rest (c + 1)%Z true) (tr ++ [fr]).
Proof.
  intros (ear & H). erewrite scan_frames_cons by exact H. reflexivity.
Qed.

Lemma scan_frames_confirms (self : t) (b1 b2 : frame) (post : list frame) :
  eyes_blinking self b1 -> eyes_blinking self b2 ->
  forall (ahead : list frame) (c : Z) (w : bool) (tr : list frame),
    (0 <= c)%Z ->
    armed self w ahead ->
    exists processed skipped,
      ahead ++ b1 :: b2 :: post = processed ++ skipped /\
      (List.length post <= List.length skipped)%nat /\
      scan_frames self (ahead ++ b1 :: b2 :: post) c w tr
      = (Return true, tr ++ processed).
Proof.
  intros Hb1 Hb2. induction ahead as [| fr ahead IH]; intros c w tr Hc Harm.
  - destruct Harm as [-> | Hex]; [| inversion Hex].
    cbn [app]. rewrite scan_frames_blinking by exact Hb1.
    unfold CONSECUTIVE_FRAMES. destruct (Z.leb_spec 2 (c + 1)).
    + exists [b1], (b2 :: post). repeat split. cbn. lia.
    + rewrite scan_frames_blinking by exact Hb2.
      destruct (Z.leb_spec CONSECUTIVE_FRAMES (c + 1 + 1));
        [| unfold CONSECUTIVE_FRAMES in *; lia].
      exists [b1; b2], post. repeat split; [lia |].
      unfold io_ret. rewrite <- app_assoc. reflexivity.
  - cbn [app].
    destruct (detect_blink_returns self fr) as (blk & ear & Hfr).
    erewrite scan_frames_cons by exact Hfr.
    assert (Hstep : forall c' w', (0 <= c')%Z -> armed self w' ahead ->
      exists processed skipped,
        fr :: ahead ++ b1 :: b2 :: post = processed ++ skipped /\
        (List.length post <= List.length skipped)%nat /\
        scan_frames self (ahead ++ b1 :: b2 :: post) c' w' (tr ++ [fr])
        = (Return true, tr ++ processed)).
    { intros c' w' Hc' Harm'.
      destruct (IH c' w' (tr ++ [fr]) Hc' Harm')
        as (processed & skipped & Heq & Hlen & Hrun).
      exists (fr :: processed), skipped. split; [cbn; rewrite Heq; reflexivity |].
      split; [exact Hlen |]. rewrite Hrun, <- app_assoc. reflexivity. }
    destruct (negb blk && Rltb 0 ear) eqn:Hopen.
    + apply Hstep; [lia | left; reflexivity].
    + destruct (blk && w) eqn:Hbw.
      * apply andb_true_iff in Hbw. destruct Hbw as [-> ->].
        destruct (Z.leb_spec CONSECUTIVE_FRAMES (c + 1)).
        -- exists [fr], (ahead ++ b1 :: b2 :: post). repeat split.
           rewrite length_app. cbn. lia.
        -- apply Hstep; [lia | left; reflexivity].
      * apply Hstep; [exact Hc |].
        destruct Harm as [Hw | Hex]; [left; exact Hw |].
        inversion Hex as [? ? Ho | ? ? Hlater]; subst.
        -- destruct Ho as (ear' & Ho & Hpos). rewrite Hfr in Ho.
           injection Ho as -> ->. apply Rltb_true in Hpos.
           rewrite Hpos in Hopen. discriminate.
        -- right. exact Hlater.
Qed.

Lemma eye_aspect_ratio_open : _eye_aspect_ratio open_eye = Return (1 / 2).
Proof.
  unfold open_eye. rewrite eye_aspect_ratio_six.
  assert (HC : euclidean (0, 0)%Z (4, 0)%Z = 4)
    by (unfold euclidean; cbn [fst snd]; apply sqrt_lem_1; lra).
  assert (HA : euclidean (1, 1)%Z (1, -1)%Z = 2)
    by (unfold euclidean; cbn [fst snd]; apply sqrt_lem_1; lra).
  assert (HB : euclidean (3, 1)%Z (3, -1)%Z = 2)
    by (unfold euclidean; cbn [fst snd]; apply sqrt_lem_1; lra).
  rewrite HC, HA, HB.
  replace (Rltb 0 4) with true by (symmetry; apply Rltb_true; lra).
  f_equal. lra.
Qed.

Lemma eye_aspect_ratio_closed : _eye_aspect_ratio closed_eye = Return 0.
Proof.
  unfold closed_eye. rewrite eye_aspect_ratio_six.
  assert (HC : euclidean (0, 0)%Z (4, 0)%Z = 4)
    by (unfold euclidean; cbn [fst snd]; apply sqrt_lem_1; lra).
  rewrite HC, !euclidean_same.
  replace (Rltb 0 4) with true by (symmetry; apply Rltb_true; lra).
  f_equal. lra.
Qed.

Lemma open_frame_open : eyes_open loaded open_frame.
Proof.
  exists ((1 / 2 + 1 / 2) / 2). split; [| lra].
  unfold detect_blink, loaded, open_frame. cbn [predictor_loaded negb].
  unfold largest_face. cbn [fold_left part].
  change (_get_eye_points (shape_of open_eye) LEFT_EYE_INDICES) with open_eye.
  change (_get_eye_points (shape_of open_eye) RIGHT_EYE_INDICES) with open_eye.
  rewrite eye_aspect_ratio_open. cbn [bind].
  replace (Rltb ((1 / 2 + 1 / 2) / 2) EAR_THRESHOLD) with false; [reflexivity |].
  symmetry. apply Rltb_false. unfold EAR_THRESHOLD. lra.
Qed.

Lemma closed_frame_blinking : eyes_blinking loaded closed_frame.
Proof.
  exists ((0 + 0) / 2).
  unfold detect_blink, loaded, closed_frame. cbn [predictor_loaded negb].
  unfold largest_face. cbn [fold_left part].
  change (_get_eye_points (shape_of closed_eye) LEFT_EYE_INDICES) with closed_eye.
  change (_get_eye_points (shape_of closed_eye) RIGHT_EYE_INDICES) with closed_eye.
  rewrite eye_aspect_ratio_closed. cbn [bind].
  replace (Rltb ((0 + 0) / 2) EAR_THRESHOLD) with true; [reflexivity |].
  symmetry. apply Rltb_true. unfold EAR_THRESHOLD. lra.
Qed.

(** C2: with the predictor loaded, once an open frame has been seen, two
    blinking frames in a row confirm liveness and end the scan: the frames
    after them are never handed to [detect_blink].  In particular the
    frames open, closed, closed, open, open are confirmed after the third
    frame. *)
Theorem blink_confirms_liveness (self : t) :
  predictor_loaded self = true ->
  (forall ahead b1 b2 post,
     (5 <= List.length (ahead ++ b1 :: b2 :: post))%nat ->
     Exists (eyes_open self) ahead ->
     eyes_blinking self b1 -> eyes_blinking self b2 ->
     exists processed skipped,
       ahead ++ b1 :: b2 :: post = processed ++ skipped /\
       (List.length post <= List.length skipped)%nat /\
       run (check_liveness self (ahead ++ b1 :: b2 :: post))
       = (Return (true, "Liveness verified (blink detected)"%string),
          processed))
  /\
  (forall o1 c1 c2 o2 o3,
     eyes_open self o1 -> eyes_blinking self c1 -> eyes_blinking self c2 ->
     eyes_open self o2 -> eyes_open self o3 ->
     run (check_liveness self [o1; c1; c2; o2; o3])
     = (Return (true, "Liveness verified (blink detected)"%string),
        [o1; c1; c2])).
Proof.
  intros Hp. split.
  - intros ahead b1 b2 post Hlen Hopen Hb1 Hb2.
    destruct (@scan_frames_confirms self b1 b2 post Hb1 Hb2 ahead 0%Z false []
                ltac:(lia) (or_intror Hopen))
      as (processed & skipped & Heq & Hskip & Hrun).
    exists processed, skipped. split; [exact Heq |]. split; [exact Hskip |].
    unfold run, check_liveness. rewrite Hp. cbn [negb].
    replace (List.length (ahead ++ b1 :: b2 :: post) <? 5)%nat with false
      by (symmetry; apply Nat.ltb_ge; exact Hlen).
    unfold io_bind. rewrite Hrun. reflexivity.
  - intros o1 c1 c2 o2 o3 Ho1 Hc1 Hc2 _ _.
    unfold run, check_liveness. rewrite Hp. cbn [negb List.length Nat.ltb Nat.leb].
    unfold io_bind.
    rewrite scan_frames_open by exact Ho1.
    rewrite scan_frames_blinking by exact Hc1.
    cbn [Z.add Z.leb Z.compare CONSECUTIVE_FRAMES Pos.compare Pos.compare_cont].
    rewrite scan_frames_blinking by exact Hc2.
    reflexivity.
Qed.

Lemma blink_confirms_liveness_witness :
  run (check_liveness loaded
         [open_frame; closed_frame; closed_frame; open_frame; open_frame])
  = (Return (true, "Liveness verified (blink detected)"%string),
     [open_frame; closed_frame; closed_frame]).
Proof.
  apply (proj2 (@blink_confirms_liveness loaded eq_refl)).
  - exact open_frame_open.
  - exact closed_frame_blinking.
  - exact closed_frame_blinking.
  - exact open_frame_open.
  - exact open_frame_open.
Defined.

(** * Further properties of the matcher *)







Lemma zip_sub_self (a : np.ndarray) : np.dot (np.zip_sub a a) (np.zip_sub a a) = 0.
Proof.
  unfold np.dot. induction a as [| x a IH]; [reflexivity |].
  cbn [np.zip_sub map combine fold_right fst snd]. rewrite IH. ring.
Qed.

Lemma calculate_distance_self (a : np.ndarray) :
  calculate_distance a a = Return 0.
Proof.
  unfold calculate_distance. rewrite subtract_same_length by reflexivity.
  cbn [bind]. unfold np.linalg_norm. rewrite zip_sub_self, sqrt_0. reflexivity.
Qed.

(** A vector is at distance 0 from itself and has similarity 1 with
    itself. *)
Theorem distance_identity (a : np.ndarray) :
  calculate_distance a a = Return 0 /\ calculate_similarity a a = Return 1.
Proof.
  pose proof (calculate_distance_self a) as H.
  split; [exact H |].
  unfold calculate_similarity. rewrite H. cbn [bind]. f_equal.
  rewrite py_max_Rmax. replace (1 - 0) with 1 by ring. apply Rmax_right. lra.
Qed.









Lemma subtract_returns_broadcastable (a b d : np.ndarray) :
  np.subtract a b = Return d -> broadcastable a b.
Proof.
  intros H. unfold broadcastable.
  destruct (Nat.eq_dec (List.length a) (List.length b)) as [E | E]; [auto |].
  destruct (Nat.eq_dec (List.length a) 1) as [Ea | Ea]; [auto |].
  destruct (Nat.eq_dec (List.length b) 1) as [Eb | Eb]; [auto |].
  rewrite subtract_mismatch in H by assumption. discriminate.
Qed.

Lemma calculate_distance_returns_broadcastable (a b : np.ndarray) (d : R) :
  calculate_distance a b = Return d -> broadcastable a b.
Proof.
  unfold calculate_distance. destruct (np.subtract a b) as [x | e] eqn:H;
    [intros _ | discriminate].
  eapply subtract_returns_broadcastable. exact H.
Qed.

Lemma find_match_loop_returns_comparable (q : np.ndarray) (cs : list stored) :
  forall st st', find_match_loop q cs st = Return st' -> comparable q cs.
Proof.
  induction cs as [| [[emb_id user_id] v] rest IH]; intros st st' H.
  - constructor.
  - destruct (calculate_distance q v) as [d | e] eqn:Hd.
    + erewrite find_match_loop_cons in H by exact Hd.
      constructor.
      * cbn [snd]. eapply calculate_distance_returns_broadcastable. exact Hd.
      * destruct (pyfloat_lt (Fin d) (best_distance st)); eapply IH; exact H.
    + cbn [find_match_loop] in H. rewrite Hd in H. discriminate.
Qed.

Lemma find_match_returns_comparable (q : np.ndarray) (cs : list stored)
    (r : option (Z * Z * R)) :
  find_match q cs = Return r -> comparable q cs.
Proof.
  unfold find_match.
  destruct (find_match_loop q cs scan_init) as [st | e] eqn:H; [| discriminate].
  intros _. eapply find_match_loop_returns_comparable. exact H.
Qed.

Lemma find_match_some_inv (q : np.ndarray) (cs : list stored)
    (emb_id user_id : Z) (s : R) :
  find_match q cs = Return (Some (emb_id, user_id, s)) ->
  exists v,
    In (emb_id, user_id, v) cs /\
    calculate_similarity q v = Return s /\
    (forall x, In x cs -> distance_of q v <= distance_of q (snd x)) /\
    distance_of q v <= 1 / 2 /\
    1 / 2 <= s <= 1.
Proof.
  intros H. pose proof (find_match_returns_comparable _ _ H) as Hcmp.
  destruct cs as [| c0 rest]; [discriminate |].
  destruct (@first_minimum_split stored
              (fun c => distance_of q (snd c)) (c0 :: rest))
    as (pre & c & post & Heq & Hpre & Hpost); [discriminate |].
  rewrite Heq in *. clear Heq.
  rewrite find_match_split in H by assumption.
  destruct (Rleb (distance_of q (snd c)) DISTANCE_THRESHOLD) eqn:Hle;
    [| discriminate].
  apply Rleb_true in Hle. unfold DISTANCE_THRESHOLD in Hle.
  destruct c as [[i u] v]. cbn [fst snd] in *.
  injection H as -> -> <-.
  pose proof (distance_of_nonneg q v) as Hpos.
  exists v. split; [apply in_elt |]. split.
  - unfold calculate_similarity. rewrite calculate_distance_defined.
    + reflexivity.
    + apply Forall_elt in Hcmp. exact Hcmp.
  - split.
    + intros x Hx. apply in_app_or in Hx. destruct Hx as [Hx | [Hx | Hx]].
      * specialize (Hpre x Hx). cbn beta in Hpre. lra.
      * subst x. cbn [snd]. lra.
      * apply Hpost. exact Hx.
    + split; [exact Hle |]. rewrite py_max_Rmax. split.
      * eapply Rle_trans; [| apply Rmax_r]. lra.
      * apply Rmax_lub; lra.
Qed.

(** A match that [find_match] reports is one of the stored records, a
    nearest one, within the threshold; the similarity reported is the
    similarity of the query and that record, and lies between 0.5 and 1. *)
Theorem find_match_result_sound (q : np.ndarray) (cs : list stored)
    (emb_id user_id : Z) (s : R) :
  find_match q cs = Return (Some (emb_id, user_id, s)) ->
  exists v,
    In (emb_id, user_id, v) cs /\
    calculate_similarity q v = Return s /\
    (forall x, In x cs -> distance_of q v <= distance_of q (snd x)) /\
    distance_of q v <= 1 / 2 /\
    1 / 2 <= s <= 1.
Proof.
  intros H. eapply find_match_some_inv. exact H.
Qed.

Lemma find_match_result_sound_aux :
  find_match [0] [(1%Z, 10%Z, [0])] = Return (Some (1%Z, 10%Z, py_max 0 (1 - distance_of [0] [0]))).
Proof.
  change [(1%Z, 10%Z, [0])] with ([] ++ (1%Z, 10%Z, [0]) :: @nil stored).
  rewrite find_match_split.
  - cbn [fst snd]. rewrite distance_of_zero.
    replace (Rleb 0 DISTANCE_THRESHOLD) with true; [reflexivity |].
    symmetry. apply Rleb_true. unfold DISTANCE_THRESHOLD. lra.
  - repeat constructor.
  - intros x [].
  - intros x [].
Qed.

Lemma find_match_result_sound_witness :
  exists v,
    In (1%Z, 10%Z, v) [(1%Z, 10%Z, [0])] /\
    calculate_similarity [0] v = Return (py_max 0 (1 - distance_of [0] [0])) /\
    (forall x, In x [(1%Z, 10%Z, [0])] ->
       distance_of [0] v <= distance_of [0] (snd x)) /\
    distance_of [0] v <= 1 / 2 /\
    1 / 2 <= py_max 0 (1 - distance_of [0] [0]) <= 1.
Proof.
  apply (@find_match_result_sound [0] [(1%Z, 10%Z, [0])] 1%Z 10%Z).
  exact find_match_result_sound_aux.
Defined.

Lemma find_match_query_stored (q : np.ndarray) (cs : list stored)
    (emb_id user_id : Z) :
  comparable q cs ->
  In (emb_id, user_id, q) cs ->
  exists emb_id' user_id',
    find_match q cs = Return (Some (emb_id', user_id', 1)).
Proof.
  intros Hcmp Hin.
  destruct cs as [| c0 rest]; [destruct Hin |].
  destruct (@first_minimum_split stored
              (fun c => distance_of q (snd c)) (c0 :: rest))
    as (pre & c & post & Heq & Hpre & Hpost); [discriminate |].
  rewrite Heq in *. clear Heq.
  assert (Hqq : distance_of q q = 0).
  { unfold distance_of. rewrite calculate_distance_self. reflexivity. }
  assert (Hc : distance_of q (snd c) = 0).
  { pose proof (distance_of_nonneg q (snd c)) as Hpos.
    apply in_app_or in Hin. destruct Hin as [Hin | [Hin | Hin]].
    - specialize (Hpre _ Hin). cbn [snd] in Hpre. lra.
    - subst c. exact Hqq.
    - specialize (Hpost _ Hin). cbn [snd] in Hpost. lra. }
  exists (fst (fst c)), (snd (fst c)).
  rewrite find_match_split by assumption. rewrite Hc.
  replace (Rleb 0 DISTANCE_THRESHOLD) with true
    by (symmetry; apply Rleb_true; unfold DISTANCE_THRESHOLD; lra).
  do 3 f_equal. rewrite py_max_Rmax. replace (1 - 0) with 1 by ring.
  apply Rmax_right. lra.
Qed.

(** When the query itself is among the stored vectors, [find_match]
    reports a match with similarity 1. *)
Theorem find_match_enrolled (q : np.ndarray) (cs : list stored)
    (emb_id user_id : Z) :
  comparable q cs ->
  In (emb_id, user_id, q) cs ->
  exists emb_id' user_id',
    find_match q cs = Return (Some (emb_id', user_id', 1)).
Proof.
  intros Hcmp Hin. eapply find_match_query_stored; eassumption.
Qed.

Lemma find_match_enrolled_witness :
  exists emb_id' user_id',
    find_match [1; 2] [(7%Z, 3%Z, [0; 0]); (8%Z, 4%Z, [1; 2])]
    = Return (Some (emb_id', user_id', 1)).
Proof.
  apply (@find_match_enrolled [1; 2]
           [(7%Z, 3%Z, [0; 0]); (8%Z, 4%Z, [1; 2])] 8%Z 4%Z).
  - repeat constructor.
  - right. left. reflexivity.
Defined.

(** * Further properties of the embedding codec *)

Lemma Z_of_byte_range (b : Byte.byte) : (0 <= np.Z_of_byte b < 256)%Z.
Proof.
  unfold np.Z_of_byte. pose proof (Byte.to_N_bounded b). lia.
Qed.

Lemma byte_of_Z_of_byte (b : Byte.byte) : np.byte_of_Z (np.Z_of_byte b) = b.
Proof.
  unfold np.byte_of_Z. rewrite Z.mod_small by apply Z_of_byte_range.
  unfold np.Z_of_byte. rewrite N2Z.id, Byte.of_to_N. reflexivity.
Qed.

Lemma byte_of_Z_mod (z : Z) : np.byte_of_Z (z mod 256) = np.byte_of_Z z.
Proof.
  unfold np.byte_of_Z. rewrite Z.mod_mod by lia. reflexivity.
Qed.

Lemma small_bits_high (B n : Z) :
  (0 <= B < 256)%Z -> (8 <= n)%Z -> Z.testbit B n = false.
Proof.
  intros HB Hn. rewrite <- (Z.mod_small B (2 ^ 8)) by (change (2 ^ 8)%Z with 256%Z; lia).
  rewrite Z.testbit_mod_pow2 by lia.
  destruct (Z.ltb_spec n 8); [lia | reflexivity].
Qed.

(** The bits of four bytes put together, least significant byte first. *)
Lemma packed_bits (B0 B1 B2 B3 n : Z) :
  (0 <= B0 < 256)%Z -> (0 <= B1 < 256)%Z ->
  (0 <= B2 < 256)%Z -> (0 <= B3 < 256)%Z -> (0 <= n)%Z ->
  Z.testbit
    (Z.lor B0 (Z.lor (Z.shiftl B1 8) (Z.lor (Z.shiftl B2 16) (Z.shiftl B3 24))))
    n
  = if (n <? 8)%Z then Z.testbit B0 n
    else if (n <? 16)%Z then Z.testbit B1 (n - 8)
    else if (n <? 24)%Z then Z.testbit B2 (n - 16)
    else Z.testbit B3 (n - 24).
Proof.
  intros H0 H1 H2 H3 Hn.
  rewrite !Z.lor_spec, !Z.shiftl_spec by lia.
  destruct (Z.ltb_spec n 8).
  { rewrite (Z.testbit_neg_r B1), (Z.testbit_neg_r B2), (Z.testbit_neg_r B3) by lia.
    rewrite !orb_false_r. reflexivity. }
  rewrite (small_bits_high H0) by lia. cbn [orb].
  destruct (Z.ltb_spec n 16).
  { rewrite (Z.testbit_neg_r B2), (Z.testbit_neg_r B3) by lia.
    rewrite !orb_false_r. reflexivity. }
  rewrite (small_bits_high H1) by lia. cbn [orb].
  destruct (Z.ltb_spec n 24).
  { rewrite (Z.testbit_neg_r B3) by lia. rewrite !orb_false_r. reflexivity. }
  rewrite (small_bits_high H2) by lia. reflexivity.
Qed.

Lemma packed_range (B0 B1 B2 B3 : Z) :
  (0 <= B0 < 256)%Z -> (0 <= B1 < 256)%Z ->
  (0 <= B2 < 256)%Z -> (0 <= B3 < 256)%Z ->
  (0 <= Z.lor B0 (Z.lor (Z.shiftl B1 8)
                    (Z.lor (Z.shiftl B2 16) (Z.shiftl B3 24))) < 2 ^ 32)%Z.
Proof.
  intros H0 H1 H2 H3.
  set (w := Z.lor B0 (Z.lor (Z.shiftl B1 8)
                        (Z.lor (Z.shiftl B2 16) (Z.shiftl B3 24)))).
  assert (Hmod : (w mod 2 ^ 32 = w)%Z).
  { apply Z.bits_inj'. intros n Hn. rewrite Z.testbit_mod_pow2 by lia.
    destruct (Z.ltb_spec n 32); [reflexivity |].
    unfold w. rewrite packed_bits by assumption.
    destruct (Z.ltb_spec n 8); [lia |]. destruct (Z.ltb_spec n 16); [lia |].
    destruct (Z.ltb_spec n 24); [lia |].
    symmetry. apply small_bits_high; [assumption | lia]. }
  rewrite <- Hmod. apply Z.mod_pos_bound. lia.
Qed.

Lemma packed_byte (B0 B1 B2 B3 : Z) :
  (0 <= B0 < 256)%Z -> (0 <= B1 < 256)%Z ->
  (0 <= B2 < 256)%Z -> (0 <= B3 < 256)%Z ->
  let w := Z.lor B0 (Z.lor (Z.shiftl B1 8)
                       (Z.lor (Z.shiftl B2 16) (Z.shiftl B3 24))) in
  (w mod 256 = B0 /\ Z.shiftr w 8 mod 256 = B1 /\
   Z.shiftr w 16 mod 256 = B2 /\ Z.shiftr w 24 mod 256 = B3)%Z.
Proof.
  intros H0 H1 H2 H3 w. change 256%Z with (2 ^ 8)%Z.
  repeat split; apply Z.bits_inj'; intros n Hn;
    rewrite Z.testbit_mod_pow2 by lia;
    rewrite ?Z.shiftr_spec by lia; unfold w;
    rewrite packed_bits by (assumption || lia);
    (destruct (Z.ltb_spec n 8);
     [| symmetry; apply small_bits_high;
        [change 256%Z with (2 ^ 8)%Z in *; assumption | lia]]);
    cbn [andb];
    repeat match goal with
           | |- context [(?a <? ?b)%Z] => destruct (Z.ltb_spec a b); try lia
           end;
    f_equal; lia.
Qed.

Lemma list_ind4 (A : Type) (P : list A -> Prop) :
  P [] -> (forall a, P [a]) -> (forall a b, P [a; b]) ->
  (forall a b c, P [a; b; c]) ->
  (forall a b c d l, P l -> P (a :: b :: c :: d :: l)) ->
  forall l, P l.
Proof.
  intros H0 H1 H2 H3 H4. fix IH 1.
  intros [| a [| b [| c [| d l]]]];
    [exact H0 | apply H1 | apply H2 | apply H3 | apply H4; apply IH].
Qed.

Lemma item_of_bytes_valid (b0 b1 b2 b3 : Byte.byte) :
  np.is_float32 (np.item_of_bytes b0 b1 b2 b3).
Proof.
  unfold np.is_float32, np.item_of_bytes. apply packed_range; apply Z_of_byte_range.
Qed.

Lemma item_bytes_of_bytes (b0 b1 b2 b3 : Byte.byte) :
  np.item_bytes (np.item_of_bytes b0 b1 b2 b3) = [b0; b1; b2; b3].
Proof.
  unfold np.item_bytes, np.item_of_bytes.
  destruct (@packed_byte (np.Z_of_byte b0) (np.Z_of_byte b1)
              (np.Z_of_byte b2) (np.Z_of_byte b3))
    as (E0 & E1 & E2 & E3); try apply Z_of_byte_range.
  cbv zeta in E0, E1, E2, E3.
  rewrite <- (byte_of_Z_mod (Z.lor _ _)), E0.
  rewrite <- (byte_of_Z_mod (Z.shiftr _ 8)), E1.
  rewrite <- (byte_of_Z_mod (Z.shiftr _ 16)), E2.
  rewrite <- (byte_of_Z_mod (Z.shiftr _ 24)), E3.
  rewrite !byte_of_Z_of_byte. reflexivity.
Qed.

Lemma frombuffer_cases (data : list Byte.byte) :
  (exists v,
     np.frombuffer data = Return v /\
     List.length data = (4 * List.length v)%nat /\
     Forall np.is_float32 v /\
     np.tobytes v = data)
  \/
  (np.frombuffer data = Raise size_error /\ (List.length data mod 4 <> 0)%nat).
Proof.
  induction data as [| a | a b | a b c | a b c d l IH] using list_ind4.
  - left. exists []. repeat split. constructor.
  - right. split; [reflexivity | cbn; lia].
  - right. split; [reflexivity | cbn; lia].
  - right. split; [reflexivity | cbn; lia].
  - cbn [np.frombuffer].
    assert (Hmod : (List.length (a :: b :: c :: d :: l) mod 4
                    = List.length l mod 4)%nat).
    { cbn [List.length].
      replace (S (S (S (S (List.length l))))) with (List.length l + 1 * 4)%nat
        by lia.
      apply Nat.Div0.mod_add. }
    destruct IH as [(v & Hv & Hlen & Hval & Hback) | (He & Hne)].
    + left. exists (np.item_of_bytes a b c d :: v). rewrite Hv. cbn [bind].
      split; [reflexivity |]. split; [cbn [List.length]; lia |]. split.
      * constructor; [apply item_of_bytes_valid | exact Hval].
      * unfold np.tobytes in *. cbn [flat_map].
        rewrite item_bytes_of_bytes, Hback. reflexivity.
    + right. rewrite He. split; [reflexivity |]. rewrite Hmod. exact Hne.
Qed.

(** Decoding succeeds exactly on buffers whose length is a multiple of 4
    and then yields one element per four bytes; on every other buffer it
    raises the [ValueError] of [np.frombuffer], which the method does not
    catch. *)
Theorem bytes_to_embedding_length (data : list Byte.byte) :
  ((List.length data mod 4 = 0)%nat <->
   exists v, bytes_to_embedding data = Return v
             /\ List.length data = (4 * List.length v)%nat)
  /\
  ((List.length data mod 4 <> 0)%nat <->
   bytes_to_embedding data = Raise size_error).
Proof.
  unfold bytes_to_embedding.
  destruct (frombuffer_cases data)
    as [(v & Hv & Hlen & _ & _) | (He & Hne)].
  - assert (Hmod : (List.length data mod 4 = 0)%nat).
    { rewrite Hlen, Nat.mul_comm. apply Nat.Div0.mod_mul. }
    split; split.
    + intros _. exists v. split; assumption.
    + intros _. exact Hmod.
    + intros H. contradiction.
    + intros H. rewrite Hv in H. discriminate.
  - split; split.
    + intros H. contradiction.
    + intros (v & Hv & _). rewrite He in Hv. discriminate.
    + intros _. exact He.
    + intros _. exact Hne.
Qed.

(** Encoding what was decoded gives back the stored bytes, and every
    decoded element is a 32-bit pattern: together with the round trip of
    C5 the two conversions are inverse to each other. *)
Theorem decode_then_encode (data : list Byte.byte) (v : list np.float32) :
  bytes_to_embedding data = Return v ->
  embedding_to_bytes v = data /\ Forall np.is_float32 v.
Proof.
  unfold bytes_to_embedding, embedding_to_bytes. intros H.
  destruct (frombuffer_cases data)
    as [(v' & Hv & _ & Hval & Hback) | (He & _)].
  - rewrite Hv in H. injection H as <-. split; assumption.
  - rewrite He in H. discriminate.
Qed.

(** The bytes of [1.0] stored least significant first. *)
Lemma decode_then_encode_witness :
  embedding_to_bytes [1065353216%Z] = [Byte.x00; Byte.x00; Byte.x80; Byte.x3f]
  /\ Forall np.is_float32 [1065353216%Z].
Proof.
  apply (@decode_then_encode [Byte.x00; Byte.x00; Byte.x80; Byte.x3f]
           [1065353216%Z]).
  reflexivity.
Defined.

(** * Further properties of the liveness verifier *)

Lemma euclidean_translate (dx dy : Z) (u v : point) :
  euclidean (translate dx dy u) (translate dx dy v) = euclidean u v.
Proof.
  unfold euclidean, translate. cbn [fst snd]. rewrite !plus_IZR.
  f_equal. ring.
Qed.


Lemma getitem_map (f : point -> point) (l : list point) (i : nat) :
  getitem (map f l) i = match getitem l i with
                        | Return p => Return (f p)
                        | Raise e => Raise e
                        end.
Proof.
  unfold getitem. rewrite nth_error_map. destruct (nth_error l i); reflexivity.
Qed.

(** The eye aspect ratio does not depend on where the eye lies in the
    frame: moving all landmarks by one offset changes nothing, also not an
    index error on a list that is too short. *)
Theorem eye_aspect_ratio_translate (dx dy : Z) (eye_points : list point) :
  _eye_aspect_ratio (map (translate dx dy) eye_points)
  = _eye_aspect_ratio eye_points.
Proof.
  unfold _eye_aspect_ratio. rewrite !getitem_map.
  repeat match goal with
         | |- context [getitem eye_points ?i] =>
             destruct (getitem eye_points i); cbn [bind]; [| reflexivity]
         end.
  rewrite !euclidean_translate. reflexivity.
Qed.



Lemma eye_aspect_ratio_six_nonneg (p0 p1 p2 p3 p4 p5 : point) :
  exists ear,
    _eye_aspect_ratio [p0; p1; p2; p3; p4; p5] = Return ear /\ 0 <= ear.
Proof.
  rewrite eye_aspect_ratio_six. eexists. split; [reflexivity |].
  destruct (Rltb 0 (euclidean p0 p3)) eqn:H; [| lra].
  apply Rltb_true in H.
  pose proof (euclidean_nonneg p1 p5). pose proof (euclidean_nonneg p2 p4).
  apply Rmult_le_pos; [lra |]. apply Rlt_le. apply Rinv_0_lt_compat. lra.
Qed.

(** What [detect_blink] reports: it always returns; the ratio is never
    negative; a blink is reported exactly when the predictor is loaded, a
    face was found and the average ratio is below 0.25; and with the
    predictor loaded a frame without a face counts neither as open nor as
    blinking. *)
Theorem detect_blink_classifies (self : t) (fr : frame) :
  exists is_blinking ear,
    detect_blink self fr = Return (is_blinking, ear) /\
    0 <= ear /\
    (is_blinking = true <->
     predictor_loaded self = true /\ fr <> [] /\ ear < 25 / 100) /\
    (predictor_loaded self = true -> fr = [] ->
     ~ eyes_open self fr /\ ~ eyes_blinking self fr).
Proof.
  unfold eyes_open, eyes_blinking, detect_blink.
  destruct (predictor_loaded self) eqn:Hp; cbn [negb].
  - destruct fr as [| f0 faces].
    + exists false, 0. split; [reflexivity |]. split; [lra |]. split.
      * split; [discriminate | intros (_ & H & _); congruence].
      * intros _ _. split.
        -- intros (ear & H & Hpos). injection H as <-. lra.
        -- intros (ear & H). discriminate.
    + unfold _get_eye_points, LEFT_EYE_INDICES, RIGHT_EYE_INDICES.
      cbn [seq map].
      destruct (eye_aspect_ratio_six_nonneg
                  (part (largest_face f0 faces) 36) (part (largest_face f0 faces) 37)
                  (part (largest_face f0 faces) 38) (part (largest_face f0 faces) 39)
                  (part (largest_face f0 faces) 40) (part (largest_face f0 faces) 41))
        as (l & Hl & Hlpos).
      destruct (eye_aspect_ratio_six_nonneg
                  (part (largest_face f0 faces) 42) (part (largest_face f0 faces) 43)
                  (part (largest_face f0 faces) 44) (part (largest_face f0 faces) 45)
                  (part (largest_face f0 faces) 46) (part (largest_face f0 faces) 47))
        as (r & Hr & Hrpos).
      rewrite Hl, Hr. cbn [bind].
      exists (Rltb ((l + r) / 2) EAR_THRESHOLD), ((l + r) / 2).
      split; [reflexivity |]. split; [lra |]. split.
      * rewrite Rltb_true. unfold EAR_THRESHOLD. split.
        -- intros H. repeat split; [discriminate | exact H].
        -- intros (_ & _ & H). exact H.
      * intros _ H. discriminate.
  - exists false, (3 / 10). split; [reflexivity |]. split; [lra |]. split.
    + split; [discriminate | intros (H & _); discriminate].
    + intros H. discriminate.
Qed.

Lemma largest_face_fold (fs : list face) :
  forall best,
    exists pre post,
      best :: fs = pre ++ fold_left
        (fun b f => if (area b <? area f)%Z then f else b) fs best :: post /\
      (forall f, In f pre ->
         (area f < area (fold_left
            (fun b f => if (area b <? area f)%Z then f else b) fs best))%Z) /\
      (forall f, In f post ->
         (area f <= area (fold_left
            (fun b f => if (area b <? area f)%Z then f else b) fs best))%Z) /\
      (area best <= area (fold_left
            (fun b f => if (area b <? area f)%Z then f else b) fs best))%Z.
Proof.
  induction fs as [| f fs IH]; intros best.
  - exists [], []. cbn. repeat split; try (intros ? []); lia.
  - cbn [fold_left]. destruct (Z.ltb_spec (area best) (area f)) as [Hlt | Hge].
    + destruct (IH f) as (pre & post & Heq & Hpre & Hpost & Hle).
      exists (best :: pre), post. rewrite Heq. repeat split.
      * intros g [<- | Hg]; [lia | apply Hpre; exact Hg].
      * exact Hpost.
      * lia.
    + destruct (IH best) as (pre & post & Heq & Hpre & Hpost & Hle).
      set (M := fold_left
                  (fun b f => if (area b <? area f)%Z then f else b) fs best)
        in *.
      destruct pre as [| p pre']; cbn [app] in Heq; injection Heq as Hb Hfs.
      * exists [], (f :: post). cbn [app]. repeat split.
        -- congruence.
        -- intros ? [].
        -- intros g [<- | Hg]; [rewrite <- Hb; lia | apply Hpost; exact Hg].
        -- exact Hle.
      * subst p.
        assert (Hbest : (area best < area M)%Z)
          by (apply Hpre; left; reflexivity).
        exists (best :: f :: pre'), post. cbn [app]. repeat split.
        -- congruence.
        -- intros g [<- | [<- | Hg]]; [exact Hbest | lia |].
           apply Hpre. right. exact Hg.
        -- exact Hpost.
        -- exact Hle.
Qed.

(** The face analysed is one of the detected faces, none has a larger
    bounding area, and among faces of that area it is the first. *)
Theorem largest_face_first_maximum (f0 : face) (faces : list face) :
  exists pre post,
    f0 :: faces = pre ++ largest_face f0 faces :: post /\
    (forall f, In f pre -> (area f < area (largest_face f0 faces))%Z) /\
    (forall f, In f post -> (area f <= area (largest_face f0 faces))%Z).
Proof.
  destruct (largest_face_fold faces f0) as (pre & post & Heq & Hpre & Hpost & _).
  exists pre, post. unfold largest_face. repeat split; assumption.
Qed.

(** *** When exactly liveness is confirmed *)

Lemma open_branch_iff (self : t) (fr : frame) (blk : bool) (ear : R) :
  detect_blink self fr = Return (blk, ear) ->
  (negb blk && Rltb 0 ear = true <-> eyes_open self fr).
Proof.
  intros H. unfold eyes_open. split.
  - intros Hb. apply andb_true_iff in Hb. destruct Hb as [Hn Hpos].
    destruct blk; [discriminate |]. exists ear. split; [exact H |].
    apply Rltb_true. exact Hpos.
  - intros (ear' & H' & Hpos). rewrite H in H'. injection H' as -> ->.
    apply Rltb_true in Hpos. rewrite Hpos. reflexivity.
Qed.

Lemma blink_branch_iff (self : t) (fr : frame) (blk : bool) (ear : R) :
  detect_blink self fr = Return (blk, ear) ->
  (blk = true <-> eyes_blinking self fr).
Proof.
  intros H. unfold eyes_blinking. split.
  - intros ->. exists ear. exact H.
  - intros (ear' & H'). rewrite H in H'. injection H' as -> _. reflexivity.
Qed.

Lemma scan_frames_trace (self : t) (frames : list frame) :
  forall c w tr,
    exists b processed skipped,
      frames = processed ++ skipped /\
      scan_frames self frames c w tr = (Return b, tr ++ processed) /\
      (b = false -> skipped = []).
Proof.
  induction frames as [| fr rest IH]; intros c w tr.
  - exists false, [], []. cbn. unfold io_ret. rewrite app_nil_r. auto.
  - destruct (detect_blink_returns self fr) as (blk & ear & Hfr).
    erewrite scan_frames_cons by exact Hfr.
    assert (Hstep : forall c' w',
      exists b processed skipped,
        fr :: rest = processed ++ skipped /\
        scan_frames self rest c' w' (tr ++ [fr]) = (Return b, tr ++ processed) /\
        (b = false -> skipped = [])).
    { intros c' w'.
      destruct (IH c' w' (tr ++ [fr])) as (b & processed & skipped & Heq & Hrun & Hb).
      exists b, (fr :: processed), skipped. rewrite Hrun, <- app_assoc, Heq.
      auto. }
    destruct (negb blk && Rltb 0 ear); [apply Hstep |].
    destruct (blk && w); [| apply Hstep].
    destruct (CONSECUTIVE_FRAMES <=? c + 1)%Z; [| apply Hstep].
    exists true, [fr], rest. repeat split. discriminate.
Qed.

Lemma scan_frames_second_blink (self : t) (b2 : frame) (post : list frame) :
  eyes_blinking self b2 ->
  forall gap c tr,
    Forall (fun f => ~ eyes_open self f) gap ->
    (1 <= c)%Z ->
    exists processed skipped,
      gap ++ b2 :: post = processed ++ skipped /\
      (List.length post <= List.length skipped)%nat /\
      scan_frames self (gap ++ b2 :: post) c true tr
      = (Return true, tr ++ processed).
Proof.
  intros Hb2. induction gap as [| g gap IH]; intros c tr Hgap Hc.
  - cbn [app]. rewrite scan_frames_blinking by exact Hb2.
    destruct (Z.leb_spec CONSECUTIVE_FRAMES (c + 1));
      [| unfold CONSECUTIVE_FRAMES in *; lia].
    exists [b2], post. repeat split. lia.
  - cbn [app]. inversion Hgap as [| ? ? Hg Hgap']; subst.
    destruct (detect_blink_returns self g) as (blk & ear & Hfr).
    erewrite scan_frames_cons by exact Hfr.
    assert (Hno : negb blk && Rltb 0 ear = false).
    { destruct (negb blk && Rltb 0 ear) eqn:E; [| reflexivity].
      exfalso. apply Hg. apply (proj1 (@open_branch_iff _ _ _ _ Hfr)). exact E. }
    rewrite Hno.
    assert (Hstep : forall c', (1 <= c')%Z ->
      exists processed skipped,
        g :: gap ++ b2 :: post = processed ++ skipped /\
        (List.length post <= List.length skipped)%nat /\
        scan_frames self (gap ++ b2 :: post) c' true (tr ++ [g])
        = (Return true, tr ++ processed)).
    { intros c' Hc'.
      destruct (IH c' (tr ++ [g]) Hgap' Hc') as (processed & skipped & Heq & Hlen & Hrun).
      exists (g :: processed), skipped. rewrite Hrun, <- app_assoc.
      cbn [app]. rewrite Heq. auto. }
    destruct blk; cbn [andb].
    + destruct (Z.leb_spec CONSECUTIVE_FRAMES (c + 1)).
      * exists [g], (gap ++ b2 :: post). repeat split.
        rewrite length_app. cbn. lia.
      * apply Hstep. lia.
    + apply Hstep. exact Hc.
Qed.

Lemma scan_frames_pattern_confirms (self : t) (b1 b2 : frame)
    (gap post : list frame) :
  eyes_blinking self b1 -> eyes_blinking self b2 ->
  Forall (fun f => ~ eyes_open self f) gap ->
  forall (ahead : list frame) (c : Z) (w : bool) (tr : list frame),
    (0 <= c)%Z ->
    armed self w ahead ->
    exists processed skipped,
      ahead ++ b1 :: gap ++ b2 :: post = processed ++ skipped /\
      (List.length post <= List.length skipped)%nat /\
      scan_frames self (ahead ++ b1 :: gap ++ b2 :: post) c w tr
      = (Return true, tr ++ processed).
Proof.
  intros Hb1 Hb2 Hgap.
  induction ahead as [| fr ahead IH]; intros c w tr Hc Harm.
  - destruct Harm as [-> | Hex]; [| inversion Hex].
    cbn [app]. rewrite scan_frames_blinking by exact Hb1.
    destruct (Z.leb_spec CONSECUTIVE_FRAMES (c + 1)).
    + exists [b1], (gap ++ b2 :: post). repeat split.
      rewrite length_app. cbn. lia.
    + destruct (@scan_frames_second_blink self b2 post Hb2 gap (c + 1)%Z
                  (tr ++ [b1]) Hgap ltac:(lia))
        as (processed & skipped & Heq & Hlen & Hrun).
      exists (b1 :: processed), skipped. rewrite Hrun, <- app_assoc.
      cbn [app]. rewrite Heq. auto.
  - cbn [app].
    destruct (detect_blink_returns self fr) as (blk & ear & Hfr).
    erewrite scan_frames_cons by exact Hfr.
    assert (Hstep : forall c' w', (0 <= c')%Z -> armed self w' ahead ->
      exists processed skipped,
        fr :: ahead ++ b1 :: gap ++ b2 :: post = processed ++ skipped /\
        (List.length post <= List.length skipped)%nat /\
        scan_frames self (ahead ++ b1 :: gap ++ b2 :: post) c' w' (tr ++ [fr])
        = (Return true, tr ++ processed)).
    { intros c' w' Hc' Harm'.
      destruct (IH c' w' (tr ++ [fr]) Hc' Harm')
        as (processed & skipped & Heq & Hlen & Hrun).
      exists (fr :: processed), skipped. rewrite Hrun, <- app_assoc.
      cbn [app]. rewrite Heq. auto. }
    destruct (negb blk && Rltb 0 ear) eqn:Hopen.
    + apply Hstep; [lia | left; reflexivity].
    + destruct (blk && w) eqn:Hbw.
      * apply andb_true_iff in Hbw. destruct Hbw as [-> ->].
        destruct (Z.leb_spec CONSECUTIVE_FRAMES (c + 1)).
        -- exists [fr], (ahead ++ b1 :: gap ++ b2 :: post). repeat split.
           rewrite !length_app. cbn. rewrite !length_app. cbn. lia.
        -- apply Hstep; [lia | left; reflexivity].
      * apply Hstep; [exact Hc |].
        destruct Harm as [Hw | Hex]; [left; exact Hw |].
        inversion Hex as [? ? Ho | ? ? Hlater]; subst.
        -- apply (proj2 (@open_branch_iff _ _ _ _ Hfr)) in Ho. congruence.
        -- right. exact Hlater.
Qed.

Lemma scan_frames_true_pattern (self : t) (frames : list frame) :
  forall c w tr tr',
    (0 <= c)%Z -> ((1 <= c)%Z -> w = true) ->
    scan_frames self frames c w tr = (Return true, tr') ->
    pending_pattern self c w frames.
Proof.
  induction frames as [| fr rest IH]; intros c w tr tr' Hc Hcw Hrun.
  - cbn in Hrun. unfold io_ret in Hrun. discriminate.
  - destruct (detect_blink_returns self fr) as (blk & ear & Hfr).
    erewrite scan_frames_cons in Hrun by exact Hfr.
    destruct (negb blk && Rltb 0 ear) eqn:Hopen.
    + (* an open frame: the counter restarts *)
      apply (proj1 (@open_branch_iff _ _ _ _ Hfr)) in Hopen.
      apply IH in Hrun; [| lia | reflexivity].
      destruct Hrun as [(H1 & _) | (l1 & b1 & l2 & b2 & l3 & Heq & _ & Hb1 & Hl2 & Hb2)];
        [lia |].
      right. exists (fr :: l1), b1, l2, b2, l3. rewrite Heq.
      repeat split; try assumption. right. left. exact Hopen.
    + assert (Hnot : ~ eyes_open self fr).
      { intros Ho. apply (proj2 (@open_branch_iff _ _ _ _ Hfr)) in Ho. congruence. }
      destruct (blk && w) eqn:Hbw.
      * apply andb_true_iff in Hbw. destruct Hbw as [-> ->].
        assert (Hblink : eyes_blinking self fr)
          by (apply (proj1 (@blink_branch_iff _ _ _ _ Hfr)); reflexivity).
        destruct (Z.leb_spec CONSECUTIVE_FRAMES (c + 1)) as [Hfull | Hless].
        -- (* the second blinking frame *)
           left. split; [unfold CONSECUTIVE_FRAMES in Hfull; lia |].
           exists [], fr, rest. repeat split; [constructor | exact Hblink].
        -- (* the first blinking frame *)
           apply IH in Hrun; [| lia | reflexivity].
           right.
           destruct Hrun as [(_ & l2 & b2 & l3 & Heq & Hl2 & Hb2)
                            | (l1 & b1 & l2 & b2 & l3 & Heq & _ & Hb1 & Hl2 & Hb2)].
           ++ exists [], fr, l2, b2, l3. rewrite Heq.
              repeat split; try assumption. left. reflexivity.
           ++ exists (fr :: l1), b1, l2, b2, l3. rewrite Heq.
              repeat split; try assumption. left. reflexivity.
      * (* neither: the state is kept *)
        apply IH in Hrun; [| exact Hc | exact Hcw].
        destruct Hrun as [(H1 & l2 & b2 & l3 & Heq & Hl2 & Hb2)
                         | (l1 & b1 & l2 & b2 & l3 & Heq & Harm & Hb1 & Hl2 & Hb2)].
        -- left. split; [exact H1 |]. exists (fr :: l2), b2, l3. rewrite Heq.
           repeat split; [constructor; assumption | exact Hb2].
        -- right. exists (fr :: l1), b1, l2, b2, l3. rewrite Heq.
           repeat split; try assumption.
           destruct Harm as [Hw | Hex]; [left; exact Hw | right; right; exact Hex].
Qed.

Lemma check_liveness_run (self : t) (frames : list frame) (b : bool)
    (processed : list frame) :
  predictor_loaded self = true ->
  (5 <= List.length frames)%nat ->
  scan_frames self frames 0%Z false [] = (Return b, processed) ->
  run (check_liveness self frames)
  = (Return (if b
             then (true, "Liveness verified (blink detected)"%string)
             else (false, "Liveness check failed (no blink detected)"%string)),
     processed).
Proof.
  intros Hp Hlen H. unfold run, check_liveness. rewrite Hp. cbn [negb].
  replace (List.length frames <? 5)%nat with false
    by (symmetry; apply Nat.ltb_ge; exact Hlen).
  unfold io_bind. rewrite H. destruct b; reflexivity.
Qed.

Lemma scan_frames_true_blink_pattern (self : t) (frames processed : list frame) :
  scan_frames self frames 0%Z false [] = (Return true, processed) ->
  blink_pattern self frames.
Proof.
  intros Hscan. apply scan_frames_true_pattern in Hscan; [| lia | lia].
  destruct Hscan as [(H1 & _)
                    | (l1 & b1 & l2 & b2 & l3 & Heq & Harm & Hb1 & Hl2 & Hb2)];
    [lia |].
  exists l1, b1, l2, b2, l3. repeat split; try assumption.
  destruct Harm as [Hw | Hex]; [discriminate | exact Hex].
Qed.

Lemma check_liveness_no_pattern (self : t) (frames : list frame) :
  predictor_loaded self = true ->
  (5 <= List.length frames)%nat ->
  ~ blink_pattern self frames ->
  run (check_liveness self frames)
  = (Return (false, "Liveness check failed (no blink detected)"%string),
     frames).
Proof.
  intros Hp Hlen Hno.
  destruct (scan_frames_trace self frames 0%Z false [])
    as (b & processed & skipped & Hsplit & Hscan & Hall).
  destruct b.
  - exfalso. apply Hno. eapply scan_frames_true_blink_pattern. exact Hscan.
  - rewrite (Hall eq_refl), app_nil_r in Hsplit. subst processed.
    rewrite (@check_liveness_run self frames _ _ Hp Hlen Hscan). reflexivity.
Qed.

(** With the predictor loaded and at least five frames, liveness is
    confirmed exactly when the frames show the blink pattern; the scan
    then stops at the latest on the second blinking frame.  Otherwise the
    check fails with the no-blink message after every frame has been
    handed to [detect_blink]. *)
Theorem check_liveness_confirmed_iff (self : t) (frames : list frame) :
  predictor_loaded self = true ->
  (5 <= List.length frames)%nat ->
  (blink_pattern self frames ->
   exists processed skipped,
     frames = processed ++ skipped /\
     run (check_liveness self frames)
     = (Return (true, "Liveness verified (blink detected)"%string), processed))
  /\
  (~ blink_pattern self frames ->
   run (check_liveness self frames)
   = (Return (false, "Liveness check failed (no blink detected)"%string),
      frames)).
Proof.
  intros Hp Hlen. split.
  - intros (l1 & b1 & l2 & b2 & l3 & Heq & Hopen & Hb1 & Hl2 & Hb2).
    destruct (@scan_frames_pattern_confirms self b1 b2 l2 l3 Hb1 Hb2 Hl2
                l1 0%Z false [] ltac:(lia) (or_intror Hopen))
      as (processed & skipped & Hsplit & _ & Hscan).
    rewrite <- Heq in Hsplit, Hscan.
    exists processed, skipped. split; [exact Hsplit |].
    rewrite (@check_liveness_run self frames _ _ Hp Hlen Hscan). reflexivity.
  - apply check_liveness_no_pattern; assumption.
Qed.

(** A frame without a face between the two closed frames. *)
Lemma check_liveness_confirmed_iff_witness :
  (blink_pattern loaded [open_frame; closed_frame; []; closed_frame; open_frame] ->
   exists processed skipped,
     [open_frame; closed_frame; []; closed_frame; open_frame]
     = processed ++ skipped /\
     run (check_liveness loaded
            [open_frame; closed_frame; []; closed_frame; open_frame])
     = (Return (true, "Liveness verified (blink detected)"%string), processed))
  /\
  (~ blink_pattern loaded [open_frame; closed_frame; []; closed_frame; open_frame] ->
   run (check_liveness loaded
          [open_frame; closed_frame; []; closed_frame; open_frame])
   = (Return (false, "Liveness check failed (no blink detected)"%string),
      [open_frame; closed_frame; []; closed_frame; open_frame])).
Proof.
  apply (@check_liveness_confirmed_iff loaded
           [open_frame; closed_frame; []; closed_frame; open_frame]).
  - reflexivity.
  - cbn. lia.
Defined.

(** A sequence in which the eyes are never seen open is never confirmed,
    however many blinking frames it holds. *)
Theorem check_liveness_never_open (self : t) (frames : list frame) :
  predictor_loaded self = true ->
  (5 <= List.length frames)%nat ->
  Forall (fun f => ~ eyes_open self f) frames ->
  run (check_liveness self frames)
  = (Return (false, "Liveness check failed (no blink detected)"%string),
     frames).
Proof.
  intros Hp Hlen Hnone.
  apply check_liveness_no_pattern; [exact Hp | exact Hlen |].
  intros (l1 & b1 & l2 & b2 & l3 & Heq & Hopen & _).
  apply Exists_exists in Hopen. destruct Hopen as (o & Hin & Ho).
  rewrite Forall_forall in Hnone. apply (Hnone o); [| exact Ho].
  rewrite Heq. apply in_or_app. left. exact Hin.
Qed.

Lemma closed_frame_not_open : ~ eyes_open loaded closed_frame.
Proof.
  intros (ear & H & _). destruct closed_frame_blinking as (ear' & H').
  rewrite H in H'. discriminate.
Qed.

(** Five frames with the eyes closed. *)
Lemma check_liveness_never_open_witness :
  run (check_liveness loaded
         [closed_frame; closed_frame; closed_frame; closed_frame; closed_frame])
  = (Return (false, "Liveness check failed (no blink detected)"%string),
     [closed_frame; closed_frame; closed_frame; closed_frame; closed_frame]).
Proof.
  apply (@check_liveness_never_open loaded
           [closed_frame; closed_frame; closed_frame; closed_frame; closed_frame]).
  - reflexivity.
  - cbn. lia.
  - repeat constructor; exact closed_frame_not_open.
Defined.

(** * Properties of the methods in front of the image libraries *)

Lemma split_no_separator (sep : Ascii.ascii) (s : string) :
  contains sep s = false -> split sep s = [s].
Proof.
  induction s as [| c rest IH]; intros H; [reflexivity |].
  cbn in H |- *. apply orb_false_iff in H. destruct H as [Hc Hrest].
  rewrite Hc, (IH Hrest). reflexivity.
Qed.

Lemma split_at_separator (sep : Ascii.ascii) (p rest : string) :
  contains sep p = false ->
  split sep (p ++ String sep rest) = p :: split sep rest.
Proof.
  induction p as [| c p IH]; intros H.
  - cbn. rewrite Ascii.eqb_refl. reflexivity.
  - cbn in H |- *. apply orb_false_iff in H. destruct H as [Hc Hp].
    rewrite Hc, (IH Hp). reflexivity.
Qed.

Lemma contains_at_separator (sep : Ascii.ascii) (p rest : string) :
  contains sep (p ++ String sep rest) = true.
Proof.
  induction p as [| c p IH]; cbn.
  - rewrite Ascii.eqb_refl. reflexivity.
  - rewrite IH. apply orb_true_r.
Qed.

Lemma split_parts (sep : Ascii.ascii) (s : string) :
  split sep s <> [] /\
  Forall (fun part => contains sep part = false) (split sep s) /\
  (contains sep s = true -> (2 <= List.length (split sep s))%nat).
Proof.
  induction s as [| c rest (Hne & Hall & Hlen)].
  - cbn. repeat split; [discriminate | repeat constructor | discriminate].
  - cbn [split contains]. destruct (Ascii.eqb c sep) eqn:Hc.
    + repeat split; [discriminate | constructor; [reflexivity | exact Hall] |].
      intros _. cbn [List.length]. destruct (split sep rest); [congruence | cbn; lia].
    + destruct (split sep rest) as [| h parts]; [congruence |].
      repeat split; [discriminate | |].
      * inversion Hall; subst. constructor; [| assumption].
        cbn. rewrite Hc. assumption.
      * cbn [orb]. exact Hlen.
Qed.

Section DecodeProperties.

Variable b64decode : string -> outcome (list Byte.byte).
Variable open_rgb : list Byte.byte -> outcome face_recognition.image.

(** A data URL and the bare payload decode alike: the part before the
    first comma is dropped, and so is everything from a second comma
    on. *)
Theorem decode_base64_image_data_url (prefix payload rest : string) :
  contains comma prefix = false ->
  contains comma payload = false ->
  decode_base64_image b64decode open_rgb (prefix ++ String comma payload)
  = decode_base64_image b64decode open_rgb payload
  /\
  decode_base64_image b64decode open_rgb
    (prefix ++ String comma (payload ++ String comma rest))
  = decode_base64_image b64decode open_rgb payload.
Proof.
  intros Hprefix Hpayload. unfold decode_base64_image.
  rewrite !contains_at_separator, Hpayload.
  rewrite !split_at_separator by assumption.
  rewrite split_no_separator by exact Hpayload.
  split; reflexivity.
Qed.

(** Whatever the string, the text handed to the base64 decoder holds no
    comma, and the method raises nothing but what the base64 decoder or
    the image library raise. *)
Theorem decode_base64_image_payload (base64_string : string) :
  exists payload,
    contains comma payload = false /\
    decode_base64_image b64decode open_rgb base64_string
    = (image_bytes <- b64decode payload ;; open_rgb image_bytes).
Proof.
  unfold decode_base64_image.
  destruct (contains comma base64_string) eqn:Hc.
  - destruct (split_parts comma base64_string) as (_ & Hall & Hlen).
    specialize (Hlen Hc).
    destruct (split comma base64_string) as [| p0 [| p1 parts]];
      try (cbn in Hlen; lia).
    exists p1. cbn [nth_error bind]. split; [| reflexivity].
    inversion Hall as [| ? ? _ Hrest]; subst.
    inversion Hrest; subst. assumption.
  - exists base64_string. split; [exact Hc | reflexivity].
Qed.

End DecodeProperties.

Lemma decode_base64_image_data_url_witness :
  decode_base64_image (fun _ => Return []) (fun _ => Return (Image (Return []) (Return [])))
    ("data:image/png;base64" ++ String comma "iVBORw0KGgo=")
  = decode_base64_image (fun _ => Return []) (fun _ => Return (Image (Return []) (Return [])))
      "iVBORw0KGgo="
  /\
  decode_base64_image (fun _ => Return []) (fun _ => Return (Image (Return []) (Return [])))
    ("data:image/png;base64" ++ String comma ("iVBORw0KGgo=" ++ String comma "x"))
  = decode_base64_image (fun _ => Return []) (fun _ => Return (Image (Return []) (Return [])))
      "iVBORw0KGgo=".
Proof.
  apply (@decode_base64_image_data_url
           (fun _ => Return []) (fun _ => Return (Image (Return []) (Return [])))
           "data:image/png;base64" "iVBORw0KGgo=" "x"); reflexivity.
Defined.

Lemma comma_is_comma : String comma EmptyString = ","%string.
Proof. reflexivity. Qed.




(** The calls of the quality gate: the detector is always called, exactly
    once and first; the extractor is called at most once, and only when
    the detector returned a first face at least 50 pixels wide and high. *)
Theorem validate_face_quality_calls (image : face_recognition.image) :
  exists result calls,
    run (validate_face_quality image) = (Return result, calls) /\
    (calls = [FaceLocations] \/ calls = [FaceLocations; FaceEncodings]) /\
    (calls = [FaceLocations; FaceEncodings] ->
     exists top right_ bottom left_ others,
       locations_of image = Return ((top, right_, bottom, left_) :: others) /\
       (50 <= right_ - left_)%Z /\ (50 <= bottom - top)%Z).
Proof.
  unfold run, validate_face_quality, try_except, io_bind,
    face_locations, face_encodings, io_call, io_ret.
  cbn [app].
  destruct (locations_of image)
    as [[| [[[top right_] bottom] left_] others] | e].
  - eexists _, _. split; [reflexivity |]. split; [left; reflexivity | discriminate].
  - destruct ((right_ - left_ <? 50)%Z || (bottom - top <? 50)%Z) eqn:Hsmall.
    + eexists _, _. split; [reflexivity |].
      split; [left; reflexivity | discriminate].
    + apply orb_false_iff in Hsmall. destruct Hsmall as [Hw Hh].
      apply Z.ltb_ge in Hw, Hh. cbn [app].
      destruct (encodings_of image) as [[| e es] | e];
        (eexists _, _; split; [reflexivity |];
         split; [right; reflexivity |]; intros _;
         exists top, right_, bottom, left_, others; auto).
  - eexists _, _. split; [reflexivity |]. split; [left; reflexivity | discriminate].
Qed.

(** * Properties of the authentication route *)

Lemma generate_embedding_run (image : face_recognition.image)
    (tr : list effect) :
  generate_embedding image tr
  = (Return (embedding_of image), tr ++ generate_effects image).
Proof.
  unfold generate_embedding, embedding_of, generate_effects, try_except,
    io_bind, lift_calls, face_encodings, print, io_call, io_ret.
  cbn [app map].
  destruct (encodings_of image) as [[| e es] | e]; cbn [app];
    rewrite <- ?app_assoc; reflexivity.
Qed.

Section RouteProperties.

Variable b64decode : string -> outcome (list Byte.byte).
Variable open_rgb : list Byte.byte -> outcome face_recognition.image.
Variable float32_value : np.float32 -> R.
Variable utcnow : Z.
Variable jwt_encode : list (string * auth.claim) -> outcome string.
Variable format_percent : R -> string.

Local Abbreviation authenticate_user :=
  (auth.authenticate_user b64decode open_rgb float32_value utcnow jwt_encode
     format_percent).
Local Abbreviation decode_image := (decode_base64_image b64decode open_rgb).

Local Abbreviation decode_row := (decode_stored float32_value).
Local Abbreviation token_for := (token_of utcnow jwt_encode).

(** The route, one step after the other. *)
Lemma authenticate_user_run (face_image : string) (db : auth.Session) :
  run (authenticate_user face_image db) =
  match decode_image face_image with
  | Raise e => (Return (auth.failure ("Authentication error: " ++ str_exn e)), [])
  | Return image =>
      (Return
         match embedding_of image with
         | None => auth.failure "No face detected in the image"
         | Some q =>
             match auth.face_embeddings db with
             | [] => auth.failure "No registered users found"
             | _ :: _ =>
                 match auth.comprehension decode_row (auth.face_embeddings db) with
                 | Raise e => auth.failure ("Authentication error: " ++ str_exn e)
                 | Return rows =>
                     match find_match q rows with
                     | Raise e =>
                         auth.failure ("Authentication error: " ++ str_exn e)
                     | Return None =>
                         auth.failure "Face not recognized. Please register first."
                     | Return (Some (_, user_id, similarity)) =>
                         match auth.first_user db user_id with
                         | None => auth.failure "User not found in database"
                         | Some u =>
                             match token_for u with
                             | Raise e =>
                                 auth.failure
                                   ("Authentication error: " ++ str_exn e)
                             | Return token =>
                                 auth.mkAuthResponse true
                                   ("Authentication successful (confidence: "
                                    ++ format_percent similarity ++ ")")
                                   (Some (auth.model_validate u))
                                   (Some token) "bearer"
                             end
                         end
                     end
                 end
             end
         end,
       generate_effects image)
  end.
Proof.
  unfold run, auth.authenticate_user, try_except, io_bind, auth.io_lift, io_ret.
  destruct (decode_image face_image) as [image | e]; [| reflexivity].
  rewrite generate_embedding_run. cbn [app].
  destruct (embedding_of image) as [q |]; [| reflexivity].
  destruct (auth.face_embeddings db) as [| row rows] eqn:Hrows; [reflexivity |].
  fold (decode_stored float32_value).
  destruct (auth.comprehension decode_row (row :: rows)) as [stored | e];
    cbv beta iota; [| reflexivity].
  destruct (find_match q stored) as [[[[emb_id user_id] similarity] |] | e];
    cbv beta iota; try reflexivity.
  destruct (auth.first_user db user_id) as [u |]; cbv beta iota;
    [| reflexivity].
  fold (token_of utcnow jwt_encode u).
  destruct (token_of utcnow jwt_encode u); reflexivity.
Qed.

Lemma comprehension_in (A B : Type) (f : A -> outcome B) (l : list A)
    (bs : list B) :
  auth.comprehension f l = Return bs ->
  (forall a, In a l -> exists b, f a = Return b /\ In b bs) /\
  (forall b, In b bs -> exists a, In a l /\ f a = Return b).
Proof.
  revert bs. induction l as [| a l IH]; intros bs H.
  - cbn in H. injection H as <-. split; intros ? [].
  - cbn [auth.comprehension] in H.
    destruct (f a) as [b |] eqn:Hb; [| discriminate]. cbn [bind] in H.
    destruct (auth.comprehension f l) as [bs' |]; [| discriminate].
    cbn [bind] in H. injection H as <-. destruct (IH bs' eq_refl) as [IH1 IH2].
    split.
    + intros a' [<- | Ha'].
      * exists b. split; [exact Hb | left; reflexivity].
      * destruct (IH1 a' Ha') as (b' & Hb' & Hin). exists b'. split; [exact Hb' | right; exact Hin].
    + intros b' [<- | Hb'].
      * exists a. split; [left; reflexivity | exact Hb].
      * destruct (IH2 b' Hb') as (a' & Ha' & Hf). exists a'. split; [right; exact Ha' | exact Hf].
Qed.

Lemma comprehension_raise (A B : Type) (f : A -> outcome B) (l : list A)
    (err : exn) :
  (forall a e, f a = Raise e -> e = err) ->
  Exists (fun a => raises (f a)) l ->
  auth.comprehension f l = Raise err.
Proof.
  intros Honly. induction l as [| a l IH]; intros H; [inversion H |].
  cbn [auth.comprehension]. destruct (f a) as [b | e] eqn:Hb; cbn [bind].
  - rewrite IH; [reflexivity |]. inversion H; subst; [| assumption].
    rewrite Hb in *. contradiction.
  - f_equal. eapply Honly. exact Hb.
Qed.

(** [authenticate_user] never raises: whatever the request and the
    database, it returns a response; the response carries a token exactly
    when it reports success, and a user exactly when it reports success. *)
Theorem authenticate_user_contained (face_image : string) (db : auth.Session) :
  exists resp effects,
    run (authenticate_user face_image db) = (Return resp, effects) /\
    (auth.success resp = true <-> auth.access_token resp <> None) /\
    (auth.success resp = true <-> auth.user resp <> None) /\
    auth.token_type resp = "bearer"%string.
Proof.
  rewrite authenticate_user_run.
  destruct (decode_image face_image) as [image | e].
  2: { eexists _, _. split; [reflexivity |]. cbn. repeat split; congruence. }
  eexists _, _. split; [reflexivity |].
  destruct (embedding_of image) as [q |];
    [| cbn; repeat split; congruence].
  destruct (auth.face_embeddings db) as [| row rows];
    [cbn; repeat split; congruence |].
  destruct (auth.comprehension decode_row (row :: rows)) as [stored | e];
    [| cbn; repeat split; congruence].
  destruct (find_match q stored) as [[[[emb_id user_id] similarity] |] | e];
    [| cbn; repeat split; congruence | cbn; repeat split; congruence].
  destruct (auth.first_user db user_id) as [u |];
    [| cbn; repeat split; congruence].
  destruct (token_for u); cbn; repeat split; congruence.
Qed.

Lemma first_user_found (db : auth.Session) (user_id : Z) (u : auth.User) :
  auth.first_user db user_id = Some u ->
  In u (auth.users db) /\ auth.id u = user_id.
Proof.
  unfold auth.first_user. intros H. apply find_some in H.
  destruct H as [Hin Heq]. split; [exact Hin | apply Z.eqb_eq; exact Heq].
Qed.

(** A successful authentication names a user of the database who owns a
    stored embedding that lies within distance 0.5 of the embedding of
    the submitted image and is nearest to it among all stored rows. *)
Theorem authenticate_user_success_sound (face_image : string)
    (db : auth.Session) (resp : auth.AuthResponse) (effects : list effect) :
  run (authenticate_user face_image db) = (Return resp, effects) ->
  auth.success resp = true ->
  exists image q row bits u,
    decode_image face_image = Return image /\
    embedding_of image = Some q /\
    In row (auth.face_embeddings db) /\
    bytes_to_embedding (auth.embedding row) = Return bits /\
    distance_of q (map float32_value bits) <= 1 / 2 /\
    (forall row' bits',
       In row' (auth.face_embeddings db) ->
       bytes_to_embedding (auth.embedding row') = Return bits' ->
       distance_of q (map float32_value bits)
       <= distance_of q (map float32_value bits')) /\
    In u (auth.users db) /\
    auth.id u = auth.emb_user_id row /\
    auth.user resp = Some (auth.model_validate u).
Proof.
  rewrite authenticate_user_run.
  destruct (decode_image face_image) as [image | e];
    [| intros [= <- _]; discriminate].
  destruct (embedding_of image) as [q |] eqn:Hq;
    [| intros [= <- _]; discriminate].
  destruct (auth.face_embeddings db) as [| row0 rows0] eqn:Hdb;
    [intros [= <- _]; discriminate |].
  rewrite <- Hdb.
  destruct (auth.comprehension decode_row (auth.face_embeddings db))
    as [stored | e] eqn:Hrows; [| intros [= <- _]; discriminate].
  destruct (find_match q stored)
    as [[[[emb_id user_id] similarity] |] | e] eqn:Hm;
    [| intros [= <- _]; discriminate | intros [= <- _]; discriminate].
  destruct (auth.first_user db user_id) as [u |] eqn:Hu;
    [| intros [= <- _]; discriminate].
  destruct (token_for u) as [token | e]; [| intros [= <- _]; discriminate].
  intros [= <- _] _.
  destruct (find_match_some_inv _ _ Hm) as (v & Hin & _ & Hmin & Hle & _).
  destruct (comprehension_in _ _ Hrows) as [Hfwd Hback].
  destruct (Hback _ Hin) as (row & Hrow & Hdec).
  unfold decode_stored in Hdec.
  destruct (bytes_to_embedding (auth.embedding row)) as [bits |] eqn:Hbits;
    [| discriminate].
  cbn [bind] in Hdec. injection Hdec as Hid Huid Hv.
  destruct (first_user_found _ _ Hu) as [Huin Huid'].
  exists image, q, row, bits, u. rewrite Hv.
  split; [reflexivity |]. split; [exact Hq |]. split; [exact Hrow |].
  split; [exact Hbits |]. split; [exact Hle |]. split.
  - intros row' bits' Hrow' Hbits'.
    destruct (Hfwd _ Hrow') as (b & Hb & Hbin).
    unfold decode_stored in Hb. rewrite Hbits' in Hb. cbn [bind] in Hb.
    injection Hb as <-. apply (Hmin _ Hbin).
  - split; [exact Huin |]. split; [congruence | reflexivity].
Qed.

Lemma comprehension_total (A B : Type) (f : A -> outcome B) (l : list A) :
  Forall (fun a => exists b, f a = Return b) l ->
  exists bs, auth.comprehension f l = Return bs.
Proof.
  induction 1 as [| a l [b Hb] _ [bs Hbs]].
  - exists []. reflexivity.
  - exists (b :: bs). cbn [auth.comprehension]. rewrite Hb. cbn [bind].
    rewrite Hbs. reflexivity.
Qed.

Lemma decode_row_cases (row : auth.FaceEmbedding) :
  (exists bits,
     bytes_to_embedding (auth.embedding row) = Return bits /\
     List.length (auth.embedding row) = (4 * List.length bits)%nat /\
     decode_row row
     = Return (auth.emb_id row, auth.emb_user_id row, map float32_value bits))
  \/
  ((List.length (auth.embedding row) mod 4 <> 0)%nat /\
   decode_row row = Raise size_error).
Proof.
  unfold decode_stored, bytes_to_embedding.
  destruct (frombuffer_cases (auth.embedding row))
    as [(v & Hv & Hlen & _ & _) | (He & Hne)].
  - left. exists v. rewrite Hv. repeat split. exact Hlen.
  - right. rewrite He. split; [exact Hne | reflexivity].
Qed.

(** One stored blob whose length is not a multiple of 4 makes every
    authentication of a detected face fail with the decoding error, wherever
    the row stands and whatever the other rows hold. *)
Theorem authenticate_user_corrupt_row (face_image : string)
    (db : auth.Session) (image : face_recognition.image) (q : np.ndarray)
    (row : auth.FaceEmbedding) :
  decode_image face_image = Return image ->
  embedding_of image = Some q ->
  In row (auth.face_embeddings db) ->
  (List.length (auth.embedding row) mod 4 <> 0)%nat ->
  run (authenticate_user face_image db)
  = (Return (auth.failure
       "Authentication error: buffer size must be a multiple of element size"),
     generate_effects image).
Proof.
  intros Himg Hq Hrow Hlen. rewrite authenticate_user_run, Himg, Hq.
  destruct (auth.face_embeddings db) as [| row0 rows0] eqn:Hdb;
    [destruct Hrow |].
  rewrite (@comprehension_raise _ _ decode_row (row0 :: rows0) size_error).
  - reflexivity.
  - intros a e Ha. destruct (decode_row_cases a) as [(b & _ & _ & Hb) | [_ Hb]];
      congruence.
  - apply Exists_exists. exists row. split; [exact Hrow |].
    destruct (decode_row_cases row) as [(b & _ & Hb & _) | [_ Hb]].
    + exfalso. apply Hlen. rewrite Hb, Nat.mul_comm. apply Nat.Div0.mod_mul.
    + rewrite Hb. exact I.
Qed.


End RouteProperties.

Lemma sample_distance : distance_of sample_query [0; 0] = 0.
Proof.
  unfold distance_of, calculate_distance, np.subtract, sample_query. cbn.
  unfold np.linalg_norm, np.dot. cbn.
  replace ((0 - 0) * (0 - 0) + ((0 - 0) * (0 - 0) + 0)) with 0 by ring.
  apply sqrt_0.
Qed.

Lemma sample_find_match :
  find_match sample_query [(1%Z, 10%Z, [0; 0])]
  = Return (Some (1%Z, 10%Z,
                  py_max 0 (1 - distance_of sample_query [0; 0]))).
Proof.
  change [(1%Z, 10%Z, [0; 0])] with ([] ++ (1%Z, 10%Z, [0; 0]) :: @nil stored).
  rewrite find_match_split.
  - cbn [fst snd]. rewrite sample_distance.
    replace (Rleb 0 DISTANCE_THRESHOLD) with true; [reflexivity |].
    symmetry. apply Rleb_true. unfold DISTANCE_THRESHOLD. lra.
  - repeat constructor.
  - intros x [].
  - intros x [].
Qed.

Lemma sample_authentication :
  run (sample_authenticate (sample_db 8))
  = (Return (auth.mkAuthResponse true
               "Authentication successful (confidence: 100.00%)"
               (Some (auth.model_validate sample_user))
               (Some "token"%string) "bearer"),
     [Call FaceEncodings]).
Proof.
  unfold sample_authenticate. rewrite authenticate_user_run.
  change (decode_base64_image sample_b64decode sample_open_rgb "")
    with (Return sample_image).
  cbv beta iota.
  change (embedding_of sample_image) with (Some sample_query).
  change (auth.face_embeddings (sample_db 8)) with [sample_row 8].
  change (auth.comprehension (decode_stored sample_value) [sample_row 8])
    with (Return [(1%Z, 10%Z, [0; 0])]).
  cbv beta iota. rewrite sample_find_match. reflexivity.
Qed.

Lemma authenticate_user_success_sound_witness :
  exists image q row bits u,
    decode_base64_image sample_b64decode sample_open_rgb "" = Return image /\
    embedding_of image = Some q /\
    In row (auth.face_embeddings (sample_db 8)) /\
    bytes_to_embedding (auth.embedding row) = Return bits /\
    distance_of q (map sample_value bits) <= 1 / 2 /\
    (forall row' bits',
       In row' (auth.face_embeddings (sample_db 8)) ->
       bytes_to_embedding (auth.embedding row') = Return bits' ->
       distance_of q (map sample_value bits)
       <= distance_of q (map sample_value bits')) /\
    In u (auth.users (sample_db 8)) /\
    auth.id u = auth.emb_user_id row /\
    auth.user sample_response = Some (auth.model_validate u).
Proof.
  apply (@authenticate_user_success_sound sample_b64decode sample_open_rgb
           sample_value 0%Z sample_jwt_encode sample_format ""
           (sample_db 8) sample_response [Call FaceEncodings]).
  - exact sample_authentication.
  - reflexivity.
Defined.

Lemma authenticate_user_corrupt_row_witness :
  run (sample_authenticate (sample_db 7))
  = (Return (auth.failure
       "Authentication error: buffer size must be a multiple of element size"),
     generate_effects sample_image).
Proof.
  apply (@authenticate_user_corrupt_row sample_b64decode sample_open_rgb
           sample_value 0%Z sample_jwt_encode sample_format ""
           (sample_db 7) sample_image sample_query (sample_row 7)).
  - reflexivity.
  - reflexivity.
  - left. reflexivity.
  - cbn. lia.
Defined.


(** * Properties of the routes that write to the database *)

(** ** Deleting a user *)

Lemma first_user_none (db : auth.Session) (user_id : Z) :
  auth.first_user db user_id = None <->
  forall u, In u (auth.users db) -> auth.id u <> user_id.
Proof.
  unfold auth.first_user. split.
  - intros H u Hu Hid. apply (find_none _ _ H) in Hu.
    apply Z.eqb_neq in Hu. contradiction.
  - intros H. destruct (find _ _) as [u |] eqn:Hf; [| reflexivity].
    apply find_some in Hf. destruct Hf as [Hin Hid].
    apply Z.eqb_eq in Hid. destruct (H u Hin Hid).
Qed.

Lemma delete_users (db : auth.Session) (u u' : auth.User) :
  In u' (auth.users (auth.delete db u)) <->
  In u' (auth.users db) /\ auth.id u' <> auth.id u.
Proof.
  cbn [auth.delete auth.users]. rewrite filter_In, negb_true_iff, Z.eqb_neq.
  reflexivity.
Qed.

Lemma delete_embeddings (db : auth.Session) (u : auth.User)
    (e : auth.FaceEmbedding) :
  In e (auth.face_embeddings (auth.delete db u)) <->
  In e (auth.face_embeddings db) /\ auth.emb_user_id e <> auth.id u.
Proof.
  cbn [auth.delete auth.face_embeddings].
  rewrite filter_In, negb_true_iff, Z.eqb_neq. reflexivity.
Qed.

(** On a referentially intact database [delete_user] leaves one: after
    it there is no user with the given id and no embedding row of that
    user, found or not, while every other user and every embedding row of
    another user is still there. *)
Theorem delete_user_cascade (user_id : Z) (db : auth.Session) :
  referential_integrity db ->
  let db' := snd (auth.delete_user user_id db) in
  referential_integrity db' /\
  auth.first_user db' user_id = None /\
  (forall e, In e (auth.face_embeddings db') ->
             auth.emb_user_id e <> user_id) /\
  (forall u, In u (auth.users db) -> auth.id u <> user_id ->
             In u (auth.users db')) /\
  (forall e, In e (auth.face_embeddings db) ->
             auth.emb_user_id e <> user_id ->
             In e (auth.face_embeddings db')).
Proof.
  intros Hdb. unfold auth.delete_user.
  destruct (auth.first_user db user_id) as [u |] eqn:Hu; cbn [snd]; cbv zeta.
  - destruct (first_user_found _ _ Hu) as [_ <-].
    split; [| split; [| split; [| split]]].
    + intros e He. apply delete_embeddings in He. destruct He as [He Hne].
      destruct (Hdb e He) as (u' & Hin & Hid). exists u'.
      split; [apply delete_users; split; [exact Hin | congruence] | exact Hid].
    + apply first_user_none. intros u' Hu'. apply delete_users in Hu'. tauto.
    + intros e He. apply delete_embeddings in He. tauto.
    + intros u' Hin Hne. apply delete_users. tauto.
    + intros e Hin Hne. apply delete_embeddings. tauto.
  - split; [exact Hdb |]. split; [exact Hu |]. split; [| tauto].
    intros e He Hid. destruct (Hdb e He) as (u' & Hin & Hid').
    apply (proj1 (first_user_none db user_id) Hu u' Hin). congruence.
Qed.

(** Deleting the same user again finds nothing: the second request is
    answered 404 and changes nothing. *)
Lemma delete_user_twice (user_id : Z) (db : auth.Session) :
  let db' := snd (auth.delete_user user_id db) in
  auth.delete_user user_id db'
  = (auth.HTTPException 404 "User not found", db').
Proof.
  cbv zeta. unfold auth.delete_user at 2 3.
  destruct (auth.first_user db user_id) as [u |] eqn:Hu; cbn [snd].
  - destruct (first_user_found _ _ Hu) as [_ <-].
    unfold auth.delete_user.
    replace (auth.first_user (auth.delete db u) (auth.id u)) with (@None auth.User);
      [reflexivity |].
    symmetry. apply first_user_none. intros u' Hu'.
    apply delete_users in Hu'. tauto.
  - unfold auth.delete_user. rewrite Hu. reflexivity.
Qed.

Section RegistrationProperties.

Variable b64decode : string -> outcome (list Byte.byte).
Variable open_rgb : list Byte.byte -> outcome face_recognition.image.
Variable float32_bits : R -> np.float32.
Variable utcnow : Z.
Variable jwt_encode : list (string * auth.claim) -> outcome string.
Variable next_user_id : auth.Session -> Z.
Variable next_embedding_id : auth.Session -> Z.

Local Abbreviation decode_image := (decode_base64_image b64decode open_rgb).
Local Abbreviation process_image := (auth.process_image b64decode open_rgb).
Local Abbreviation process_images := (auth.process_images b64decode open_rgb).
Local Abbreviation register_user :=
  (auth.register_user b64decode open_rgb float32_bits utcnow jwt_encode
     next_user_id next_embedding_id).

Lemma process_image_frame (i : nat) (s : string) (tr : list effect) :
  process_image i s tr
  = (fst (process_image i s []), tr ++ snd (process_image i s [])).
Proof.
  unfold auth.process_image, io_bind, auth.io_lift, lift_calls, io_ret.
  destruct (decode_image s) as [image | e];
    [| cbn [fst snd]; rewrite app_nil_r; reflexivity].
  destruct (validate_face_quality image []) as [[[[|] msg] | e] calls];
    cbn [negb fst snd app]; try reflexivity.
  rewrite !generate_embedding_run.
  destruct (embedding_of image); cbn [fst snd app];
    rewrite app_assoc; reflexivity.
Qed.

Lemma process_image_cases (i : nat) (s : string) (tr : list effect) :
  (exists image q,
     decode_image s = Return image /\ embedding_of image = Some q /\
     fst (process_image i s tr) = auth.Ok q) \/
  (exists detail,
     fst (process_image i s tr)
     = auth.HTTPException auth.HTTP_400_BAD_REQUEST (image_label i ++ detail)).
Proof.
  unfold auth.process_image, io_bind, auth.io_lift, lift_calls, io_ret.
  fold (image_label i).
  destruct (decode_image s) as [image | e];
    [| right; eexists; reflexivity].
  destruct (validate_face_quality image []) as [[[[|] msg] | e] calls];
    cbn [negb fst snd app]; try (right; eexists; reflexivity).
  rewrite generate_embedding_run.
  destruct (embedding_of image) as [q |] eqn:Hq; cbn [fst snd].
  - left. exists image, q. repeat split. exact Hq.
  - right. eexists. reflexivity.
Qed.

Local Abbreviation accepts := (accepted b64decode open_rgb).
Local Abbreviation effects_of := (image_effects b64decode open_rgb).

Lemma process_image_effects_index (i : nat) (s : string) :
  snd (process_image i s []) = effects_of s.
Proof.
  unfold image_effects, auth.process_image, io_bind, auth.io_lift, lift_calls,
    io_ret.
  destruct (decode_image s) as [image | e]; [| reflexivity].
  destruct (validate_face_quality image []) as [[[[|] msg] | e] calls];
    cbn [negb fst snd app]; try reflexivity.
  rewrite !generate_embedding_run.
  destruct (embedding_of image); reflexivity.
Qed.

Lemma process_image_ok_index (i j : nat) (s : string) (tr tr' : list effect)
    (q : np.ndarray) :
  fst (process_image i s tr) = auth.Ok q ->
  fst (process_image j s tr') = auth.Ok q.
Proof.
  unfold auth.process_image, io_bind, auth.io_lift, lift_calls, io_ret.
  destruct (decode_image s) as [image | e]; [| discriminate].
  destruct (validate_face_quality image []) as [[[[|] msg] | e] calls];
    cbn [negb fst snd app]; try discriminate.
  rewrite !generate_embedding_run.
  destruct (embedding_of image); cbn [fst]; [tauto | discriminate].
Qed.

Lemma process_image_run (i : nat) (s : string) (tr : list effect) :
  process_image i s tr = (fst (process_image i s []), tr ++ effects_of s).
Proof. rewrite process_image_frame, process_image_effects_index. reflexivity. Qed.

Lemma process_image_accepted (i : nat) (s : string) (tr : list effect)
    (q : np.ndarray) :
  accepts s q -> process_image i s tr = (auth.Ok q, tr ++ effects_of s).
Proof.
  intros H. rewrite process_image_run. f_equal.
  eapply process_image_ok_index. exact H.
Qed.

Lemma process_image_rejected (i : nat) (s : string) (tr : list effect) :
  (forall q, ~ accepts s q) ->
  exists detail,
    process_image i s tr
    = (auth.HTTPException auth.HTTP_400_BAD_REQUEST (image_label i ++ detail),
       tr ++ effects_of s).
Proof.
  intros H. rewrite process_image_run.
  destruct (process_image_cases i s []) as [(image & q & _ & _ & Hq) | [d Hd]].
  - exfalso. apply (H q). eapply process_image_ok_index. exact Hq.
  - exists d. rewrite Hd. reflexivity.
Qed.

Lemma accepted_or_not (s : string) :
  (exists q, accepts s q) \/ (forall q, ~ accepts s q).
Proof.
  unfold accepted. destruct (fst (process_image 0 s [])) as [q | c d | e].
  - left. exists q. reflexivity.
  - right. intros q. discriminate.
  - right. intros q. discriminate.
Qed.

Lemma process_images_accepted (imgs : list string) (embs : list np.ndarray) :
  Forall2 accepts imgs embs ->
  forall i acc tr,
    process_images i imgs acc tr
    = (auth.Ok (acc ++ embs), tr ++ List.concat (map effects_of imgs)).
Proof.
  induction 1 as [| s q imgs embs Hs _ IH]; intros i acc tr.
  - cbn. rewrite !app_nil_r. reflexivity.
  - cbn [auth.process_images map List.concat].
    rewrite (process_image_accepted i tr Hs), IH, <- !app_assoc. reflexivity.
Qed.

Lemma process_images_rejected (pre : list string) (embs : list np.ndarray)
    (s : string) (post : list string) :
  Forall2 accepts pre embs ->
  (forall q, ~ accepts s q) ->
  forall i acc tr,
  exists detail,
    process_images i (pre ++ s :: post) acc tr
    = (auth.HTTPException auth.HTTP_400_BAD_REQUEST
         (image_label (i + List.length pre) ++ detail),
       tr ++ List.concat (map effects_of pre) ++ effects_of s).
Proof.
  intros Hpre Hs. induction Hpre as [| s' q pre embs Hs' _ IH]; intros i acc tr.
  - cbn [app auth.process_images List.length map List.concat].
    destruct (process_image_rejected i tr Hs) as [d Hd].
    exists d. rewrite Hd, Nat.add_0_r. reflexivity.
  - cbn [app auth.process_images List.length map List.concat].
    rewrite (process_image_accepted i tr Hs').
    destruct (IH (S i) (acc ++ [q]) (tr ++ effects_of s')) as [d Hd].
    exists d. rewrite Hd, <- !app_assoc.
    replace (i + S (List.length pre))%nat with (S i + List.length pre)%nat
      by lia.
    reflexivity.
Qed.

(** Every list of images is accepted as a whole or has a first image
    that is not accepted. *)
Lemma images_split (imgs : list string) :
  (exists embs, Forall2 accepts imgs embs) \/
  (exists pre embs s post,
     imgs = pre ++ s :: post /\ Forall2 accepts pre embs /\
     forall q, ~ accepts s q).
Proof.
  induction imgs as [| s imgs IH].
  - left. exists []. constructor.
  - destruct (accepted_or_not s) as [[q Hq] | Hno].
    + destruct IH as [[embs H] | (pre & embs & s' & post & -> & Hpre & Hs')].
      * left. exists (q :: embs). constructor; assumption.
      * right. exists (s :: pre), (q :: embs), s', post.
        split; [reflexivity |]. split; [constructor; assumption | exact Hs'].
    + right. exists [], [], s, imgs.
      split; [reflexivity |]. split; [constructor | exact Hno].
Qed.

Local Abbreviation add_embedding :=
  (auth.add_embedding float32_bits utcnow next_embedding_id).

Lemma fold_add_embedding (user_id : Z) (embs : list np.ndarray) :
  forall db,
    auth.users (fold_left (add_embedding user_id) embs db) = auth.users db /\
    exists rows,
      auth.face_embeddings (fold_left (add_embedding user_id) embs db)
      = auth.face_embeddings db ++ rows /\
      Forall2 (fun row q =>
                 auth.emb_user_id row = user_id /\
                 auth.embedding row
                 = embedding_to_bytes (map float32_bits q)) rows embs.
Proof.
  induction embs as [| q embs IH]; intros db.
  - split; [reflexivity |]. exists []. rewrite app_nil_r.
    split; [reflexivity | constructor].
  - cbn [fold_left].
    destruct (IH (add_embedding user_id db q)) as (Hu & rows & Hrows & Hall).
    split; [rewrite Hu; reflexivity |].
    eexists (_ :: rows). split.
    + rewrite Hrows. cbn [auth.add_embedding auth.face_embeddings].
      rewrite <- app_assoc. reflexivity.
    + constructor; [split; reflexivity | exact Hall].
Qed.


Lemma find_none_app_last (A : Type) (f : A -> bool) (l : list A) (a : A) :
  find f l = None -> f a = true -> find f (l ++ [a]) = Some a.
Proof.
  intros Hl Ha. induction l as [| b l IH]; cbn in *.
  - rewrite Ha. reflexivity.
  - destruct (f b); [discriminate | apply IH; exact Hl].
Qed.


Lemma Forall2_length_eq (A B : Type) (P : A -> B -> Prop) (l : list A)
    (l' : list B) :
  Forall2 P l l' -> List.length l = List.length l'.
Proof. induction 1; cbn; congruence. Qed.


Lemma string_append_assoc (a b c : string) :
  ((a ++ b) ++ c)%string = (a ++ b ++ c)%string.
Proof. induction a as [| x a IH]; cbn; [reflexivity | rewrite IH; reflexivity]. Qed.

Lemma register_user_accepted (name_ email_ : string)
    (face_images : list string) (embs : list np.ndarray) (db : auth.Session) :
  auth.first_user_by_email db email_ = None ->
  (List.length face_images <? 3)%nat = false ->
  (10 <? List.length face_images)%nat = false ->
  Forall2 accepts face_images embs ->
  register_user name_ email_ face_images db
  = let u := auth.mkUser (next_user_id db) name_ email_ utcnow in
    let db' := fold_left (add_embedding (auth.id u)) embs (auth.add_user db u) in
    (match token_of utcnow jwt_encode u with
     | Return token =>
         auth.Ok (auth.mkAuthResponse true
                    ("User registered successfully with "
                     ++ auth.str_nat (List.length face_images)
                     ++ " face images")
                    (Some (auth.model_validate u)) (Some token) "bearer")
     | Raise e => auth.Unhandled e
     end, db', List.concat (map effects_of face_images)).
Proof.
  intros Hmail H3 H10 H. unfold auth.register_user.
  rewrite Hmail, H3, H10, (process_images_accepted H).
  rewrite (Forall2_length_eq H). cbn [app]. unfold token_of.
  cbn [auth.id auth.email].
  destruct (auth.create_access_token utcnow jwt_encode _ None); reflexivity.
Qed.

Lemma register_user_ok_inv (name_ email_ : string)
    (face_images : list string) (db db' : auth.Session)
    (resp : auth.AuthResponse) (tr : list effect) :
  register_user name_ email_ face_images db = (auth.Ok resp, db', tr) ->
  exists embs rows token,
    (3 <= List.length face_images <= 10)%nat /\
    auth.first_user_by_email db email_ = None /\
    Forall2 accepts face_images embs /\
    let u := auth.mkUser (next_user_id db) name_ email_ utcnow in
    auth.users db' = auth.users db ++ [u] /\
    auth.face_embeddings db' = auth.face_embeddings db ++ rows /\
    Forall2 (fun row q =>
               auth.emb_user_id row = auth.id u /\
               auth.embedding row = embedding_to_bytes (map float32_bits q))
      rows embs /\
    resp = auth.mkAuthResponse true
             ("User registered successfully with "
              ++ auth.str_nat (List.length face_images) ++ " face images")
             (Some (auth.model_validate u)) (Some token) "bearer" /\
    tr = List.concat (map effects_of face_images).
Proof.
  intros Hrun.
  destruct (auth.first_user_by_email db email_) eqn:Hmail;
    [unfold auth.register_user in Hrun; rewrite Hmail in Hrun; discriminate |].
  destruct (List.length face_images <? 3)%nat eqn:H3;
    [unfold auth.register_user in Hrun; rewrite Hmail, H3 in Hrun;
     discriminate |].
  destruct (10 <? List.length face_images)%nat eqn:H10;
    [unfold auth.register_user in Hrun; rewrite Hmail, H3, H10 in Hrun;
     discriminate |].
  destruct (images_split face_images)
    as [[embs H] | (pre & embs & s & post & Heq & Hpre & Hs)].
  - rewrite (@register_user_accepted name_ email_ face_images embs db
               Hmail H3 H10 H) in Hrun.
    cbv zeta in Hrun.
    set (u := auth.mkUser (next_user_id db) name_ email_ utcnow) in *.
    destruct (token_of utcnow jwt_encode u) as [token | e]; [| discriminate].
    injection Hrun as <- <- <-.
    destruct (fold_add_embedding (auth.id u) embs (auth.add_user db u))
      as (Hu & rows & Hrows & Hall).
    exists embs, rows, token.
    apply Nat.ltb_ge in H3. apply Nat.ltb_ge in H10.
    split; [lia |]. split; [reflexivity |]. split; [exact H |].
    change (auth.id u) with (next_user_id db) in Hu, Hrows.
    cbv zeta. fold u. rewrite Hu, Hrows.
    split; [reflexivity |]. split; [reflexivity |]. split; [exact Hall |].
    split; reflexivity.
  - subst face_images. unfold auth.register_user in Hrun.
    rewrite Hmail, H3, H10 in Hrun.
    destruct (process_images_rejected post Hpre Hs 0 [] []) as [d Hd].
    rewrite Hd in Hrun. discriminate.
Qed.

(** A registration that succeeds had a new email and between 3 and 10
    images, each of them accepted; it appends one user, with the id the
    database assigns, and one embedding row per image, in the order of
    the images, each owned by the new user and holding the bytes of the
    embedding of its image.  Nothing else in the database changes. *)
Theorem register_user_success (name_ email_ : string)
    (face_images : list string) (db db' : auth.Session)
    (resp : auth.AuthResponse) (tr : list effect) :
  register_user name_ email_ face_images db = (auth.Ok resp, db', tr) ->
  exists embs rows token,
    (3 <= List.length face_images <= 10)%nat /\
    auth.first_user_by_email db email_ = None /\
    Forall2 accepts face_images embs /\
    let u := auth.mkUser (next_user_id db) name_ email_ utcnow in
    auth.users db' = auth.users db ++ [u] /\
    auth.face_embeddings db' = auth.face_embeddings db ++ rows /\
    Forall2 (fun row q =>
               auth.emb_user_id row = auth.id u /\
               auth.embedding row = embedding_to_bytes (map float32_bits q))
      rows embs /\
    resp = auth.mkAuthResponse true
             ("User registered successfully with "
              ++ auth.str_nat (List.length face_images) ++ " face images")
             (Some (auth.model_validate u)) (Some token) "bearer" /\
    tr = List.concat (map effects_of face_images).
Proof.
  intros Hrun. eapply register_user_ok_inv. exact Hrun.
Qed.

(** A registration with a new email and an admissible number of images
    fails on the first image that is not accepted: the detail names that
    image by its position counted from 1, the images after it are neither
    decoded nor examined, and the database is as it was. *)
Theorem register_user_first_failure (name_ email_ : string)
    (pre : list string) (embs : list np.ndarray) (s : string)
    (post : list string) (db : auth.Session) :
  auth.first_user_by_email db email_ = None ->
  (3 <= List.length (pre ++ s :: post) <= 10)%nat ->
  Forall2 accepts pre embs ->
  (forall q, ~ accepts s q) ->
  exists detail,
    register_user name_ email_ (pre ++ s :: post) db
    = (auth.HTTPException 400
         ("Image " ++ auth.str_nat (List.length pre + 1) ++ ": " ++ detail),
       db, List.concat (map effects_of pre) ++ effects_of s).
Proof.
  intros Hmail Hlen Hpre Hs. unfold auth.register_user. rewrite Hmail.
  replace (List.length (pre ++ s :: post) <? 3)%nat with false
    by (symmetry; apply Nat.ltb_ge; lia).
  replace (10 <? List.length (pre ++ s :: post))%nat with false
    by (symmetry; apply Nat.ltb_ge; lia).
  destruct (process_images_rejected post Hpre Hs 0 [] []) as [d Hd].
  exists d. rewrite Hd. unfold image_label. cbn [app Nat.add].
  rewrite !string_append_assoc. reflexivity.
Qed.

Lemma registered_integrity (db : auth.Session) (u : auth.User)
    (embs : list np.ndarray) :
  referential_integrity db ->
  referential_integrity
    (fold_left (add_embedding (auth.id u)) embs (auth.add_user db u)).
Proof.
  intros Hdb e He.
  destruct (fold_add_embedding (auth.id u) embs (auth.add_user db u))
    as (Hu & rows & Hrows & Hall).
  rewrite Hu. rewrite Hrows in He. cbn [auth.add_user auth.users
    auth.face_embeddings] in *.
  apply in_app_or in He. destruct He as [He | He].
  - destruct (Hdb e He) as (u' & Hin & Hid).
    exists u'. split; [apply in_or_app; left; exact Hin | exact Hid].
  - exists u. split; [apply in_or_app; right; left; reflexivity |].
    clear Hrows Hu. revert He.
    induction Hall as [| row q rows embs' [Hrow _] _ IH]; intros He;
      [destruct He |].
    destruct He as [<- | He]; [symmetry; exact Hrow | apply IH; exact He].
Qed.

(** [register_user] keeps the database referentially intact, whatever the
    request and whatever its reply. *)
Theorem register_user_keeps_integrity (name_ email_ : string)
    (face_images : list string) (db : auth.Session) :
  referential_integrity db ->
  referential_integrity (snd (fst (register_user name_ email_ face_images db))).
Proof.
  intros Hdb. unfold auth.register_user.
  destruct (auth.first_user_by_email db email_); [exact Hdb |].
  destruct (List.length face_images <? 3)%nat; [exact Hdb |].
  destruct (10 <? List.length face_images)%nat; [exact Hdb |].
  destruct (images_split face_images)
    as [[embs H] | (pre & embs & s & post & -> & Hpre & Hs)].
  - rewrite (process_images_accepted H). cbn [app].
    set (u := auth.mkUser (next_user_id db) name_ email_ utcnow).
    pose proof (@registered_integrity db u embs Hdb) as Hreg.
    destruct (auth.create_access_token utcnow jwt_encode _ None);
      exact Hreg.
  - destruct (process_images_rejected post Hpre Hs 0 [] []) as [d Hd].
    rewrite Hd. exact Hdb.
Qed.

Lemma filter_all (A : Type) (f : A -> bool) (l : list A) :
  (forall x, In x l -> f x = true) -> filter f l = l.
Proof.
  induction l as [| a l IH]; intros H; [reflexivity |].
  cbn [filter]. rewrite (H a (or_introl eq_refl)), IH; [reflexivity |].
  intros x Hx. apply H. right. exact Hx.
Qed.

Lemma filter_none (A : Type) (f : A -> bool) (l : list A) :
  (forall x, In x l -> f x = false) -> filter f l = [].
Proof.
  induction l as [| a l IH]; intros H; [reflexivity |].
  cbn [filter]. rewrite (H a (or_introl eq_refl)). apply IH.
  intros x Hx. apply H. right. exact Hx.
Qed.

(** Deleting the user a successful registration reports, by the id in the
    response, undoes the registration: when the id the database assigned
    was not in use, the database is again what it was before. *)
Theorem register_then_delete (name_ email_ : string)
    (face_images : list string) (db db' : auth.Session)
    (resp : auth.AuthResponse) (tr : list effect) (user_id : Z) :
  referential_integrity db ->
  auth.first_user db (next_user_id db) = None ->
  register_user name_ email_ face_images db = (auth.Ok resp, db', tr) ->
  option_map auth.resp_id (auth.user resp) = Some user_id ->
  auth.delete_user user_id db'
  = (auth.Ok (true, ("User " ++ name_ ++ " deleted successfully")%string), db).
Proof.
  intros Hdb Hfresh Hrun Hid.
  destruct (register_user_ok_inv _ _ _ _ Hrun)
    as (embs & rows & token & _ & _ & _ & Hinv).
  cbv zeta in Hinv. destruct Hinv as (Husers & Hrows & Hall & -> & _).
  cbn in Hid. injection Hid as <-.
  set (u := auth.mkUser (next_user_id db) name_ email_ utcnow) in *.
  pose proof (proj1 (first_user_none db (next_user_id db)) Hfresh) as Hnone.
  assert (Hfound : auth.first_user db' (next_user_id db) = Some u).
  { unfold auth.first_user. rewrite Husers. apply find_none_app_last.
    - exact Hfresh.
    - apply Z.eqb_refl. }
  unfold auth.delete_user. rewrite Hfound. cbv zeta.
  f_equal. unfold auth.delete. rewrite Husers, Hrows, !filter_app.
  rewrite (@filter_all _ _ (auth.users db)).
  2: { intros u' Hu'. apply negb_true_iff, Z.eqb_neq. apply Hnone. exact Hu'. }
  rewrite (@filter_all _ _ (auth.face_embeddings db)).
  2: { intros e He. apply negb_true_iff, Z.eqb_neq.
       destruct (Hdb e He) as (u' & Hu' & <-). apply Hnone. exact Hu'. }
  rewrite (@filter_none _ _ rows).
  2: { intros e He. apply negb_false_iff, Z.eqb_eq. clear Hrows.
       revert He. induction Hall as [| row q rows embs' [Hrow _] _ IH];
         intros He; [destruct He |].
       destruct He as [<- | He]; [exact Hrow | apply IH; exact He]. }
  cbn [filter auth.id u]. rewrite Z.eqb_refl. cbn [negb].
  rewrite !app_nil_r. destruct db; reflexivity.
Qed.

End RegistrationProperties.

(** * Registration followed by authentication *)

Section EndToEnd.

Variable b64decode : string -> outcome (list Byte.byte).
Variable open_rgb : list Byte.byte -> outcome face_recognition.image.
Variable float32_bits : R -> np.float32.
Variable float32_value : np.float32 -> R.
Variable utcnow : Z.
Variable jwt_encode : list (string * auth.claim) -> outcome string.
Variable format_percent : R -> string.
Variable next_user_id : auth.Session -> Z.
Variable next_embedding_id : auth.Session -> Z.

Local Abbreviation decode_image := (decode_base64_image b64decode open_rgb).
Local Abbreviation accepts := (accepted b64decode open_rgb).
Local Abbreviation decode_row := (decode_stored float32_value).
Local Abbreviation register_user :=
  (auth.register_user b64decode open_rgb float32_bits utcnow jwt_encode
     next_user_id next_embedding_id).
Local Abbreviation authenticate_user :=
  (auth.authenticate_user b64decode open_rgb float32_value utcnow jwt_encode
     format_percent).

Lemma accepted_inv (s : string) (q : np.ndarray) :
  accepts s q ->
  exists image, decode_image s = Return image /\ embedding_of image = Some q.
Proof.
  unfold accepted. intros H.
  destruct (process_image_cases b64decode open_rgb 0 s [])
    as [(image & q' & Hd & He & Hok) | [d Hd]]; rewrite H in *.
  - injection Hok as ->. exists image. split; assumption.
  - discriminate.
Qed.

Lemma Forall2_in_left (A B : Type) (P : A -> B -> Prop) (l : list A)
    (l' : list B) (a : A) :
  Forall2 P l l' -> In a l -> exists b, In b l' /\ P a b.
Proof.
  induction 1 as [| x y l l' Hxy _ IH]; intros Ha; [destruct Ha |].
  destruct Ha as [<- | Ha].
  - exists y. split; [left; reflexivity | exact Hxy].
  - destruct (IH Ha) as (b & Hb & Hab). exists b. split; [right |]; assumption.
Qed.

Lemma Forall2_in_right (A B : Type) (P : A -> B -> Prop) (l : list A)
    (l' : list B) (b : B) :
  Forall2 P l l' -> In b l' -> exists a, In a l /\ P a b.
Proof.
  induction 1 as [| x y l l' Hxy _ IH]; intros Hb; [destruct Hb |].
  destruct Hb as [<- | Hb].
  - exists x. split; [left; reflexivity | exact Hxy].
  - destruct (IH Hb) as (a & Ha & Hab). exists a. split; [right |]; assumption.
Qed.

Lemma decode_row_encoded (row : auth.FaceEmbedding) (q : np.ndarray) :
  (forall x, np.is_float32 (float32_bits x)) ->
  auth.embedding row = embedding_to_bytes (map float32_bits q) ->
  decode_row row
  = Return (auth.emb_id row, auth.emb_user_id row,
            map float32_value (map float32_bits q)).
Proof.
  intros Hbits Hrow. unfold decode_stored, bytes_to_embedding.
  rewrite Hrow. unfold embedding_to_bytes. rewrite frombuffer_tobytes.
  - reflexivity.
  - apply Forall_forall. intros w Hw. apply in_map_iff in Hw.
    destruct Hw as (x & <- & _). apply Hbits.
Qed.

Lemma decode_row_sized (row : auth.FaceEmbedding) (n : nat) :
  List.length (auth.embedding row) = (4 * n)%nat ->
  exists bits,
    decode_row row
    = Return (auth.emb_id row, auth.emb_user_id row, map float32_value bits) /\
    List.length bits = n.
Proof.
  intros Hlen.
  destruct (decode_row_cases float32_value row)
    as [(bits & _ & Hb & Hdec) | [Hne _]].
  - exists bits. split; [exact Hdec | lia].
  - exfalso. apply Hne. rewrite Hlen, Nat.mul_comm. apply Nat.Div0.mod_mul.
Qed.

(** After a successful registration, authenticating with any one of the
    registered images succeeds with similarity 1, provided that the
    database was referentially intact, that all embeddings, stored and
    new, have one dimensionality [n], that the elements of the embedding of
    that image are 32-bit floats (storing and reloading gives them back),
    and that the token encoder works. *)
Theorem register_then_authenticate (name_ email_ : string)
    (face_images : list string) (db db' : auth.Session)
    (resp : auth.AuthResponse) (tr : list effect) (s : string) (n : nat) :
  register_user name_ email_ face_images db = (auth.Ok resp, db', tr) ->
  In s face_images ->
  referential_integrity db ->
  Forall (fun row => List.length (auth.embedding row) = (4 * n)%nat)
    (auth.face_embeddings db) ->
  (forall s' q', In s' face_images -> accepts s' q' -> List.length q' = n) ->
  (forall x, np.is_float32 (float32_bits x)) ->
  (forall q x, accepts s q -> In x q -> float32_value (float32_bits x) = x) ->
  (forall payload, exists token, jwt_encode payload = Return token) ->
  exists resp' effects u,
    run (authenticate_user s db') = (Return resp', effects) /\
    auth.success resp' = true /\
    auth.message resp'
    = ("Authentication successful (confidence: " ++ format_percent 1 ++ ")")%string /\
    In u (auth.users db') /\
    auth.user resp' = Some (auth.model_validate u).
Proof.
  intros Hrun Hs Hdb Hold Hdim Hbits Hval Hjwt.
  destruct (register_user_ok_inv _ _ _ _ _ _ _ _ _ _ _ Hrun)
    as (embs & rows & token & _ & _ & Hacc & Hinv).
  cbv zeta in Hinv. destruct Hinv as (Husers & Hrows & Hall & _ & _).
  set (u := auth.mkUser (next_user_id db) name_ email_ utcnow) in *.
  destruct (Forall2_in_left s Hacc Hs) as (q & Hq_in & Hq).
  destruct (accepted_inv Hq) as (image & Himg & Hemb).
  destruct (Forall2_in_right q Hall Hq_in) as (row & Hrow_in & Hrow_uid & Hrow).
  assert (Hrow_db : In row (auth.face_embeddings db')).
  { rewrite Hrows. apply in_or_app. right. exact Hrow_in. }
  assert (Hqq : map float32_value (map float32_bits q) = q).
  { rewrite map_map. rewrite <- (map_id q) at 2. apply map_ext_in.
    intros x Hx. apply (Hval q x Hq Hx). }
  assert (Hint : referential_integrity db').
  { intros e He. rewrite Husers. rewrite Hrows in He.
    apply in_app_or in He. destruct He as [He | He].
    - destruct (Hdb e He) as (u' & Hu' & Hid). exists u'.
      split; [apply in_or_app; left; exact Hu' | exact Hid].
    - exists u. split; [apply in_or_app; right; left; reflexivity |].
      destruct (Forall2_in_left e Hall He) as (q' & _ & Huid & _).
      symmetry. exact Huid. }
  assert (Hdec : forall r, In r (auth.face_embeddings db') ->
            exists v, decode_row r
                      = Return (auth.emb_id r, auth.emb_user_id r, v) /\
                      List.length v = n).
  { intros r Hr. rewrite Hrows in Hr. apply in_app_or in Hr.
    destruct Hr as [Hr | Hr].
    - rewrite Forall_forall in Hold.
      destruct (@decode_row_sized r n (Hold r Hr)) as (bits & Hd & Hlen).
      eexists. split; [exact Hd | rewrite length_map; exact Hlen].
    - destruct (Forall2_in_left r Hall Hr) as (q' & Hq' & _ & Hbytes).
      destruct (Forall2_in_right q' Hacc Hq') as (s' & Hs' & Hacc').
      eexists. split; [apply (@decode_row_encoded r q' Hbits Hbytes) |].
      rewrite !length_map. apply (Hdim s' q' Hs' Hacc'). }
  destruct (@comprehension_total _ _ decode_row (auth.face_embeddings db'))
    as [stored Hstored].
  { apply Forall_forall. intros r Hr. destruct (Hdec r Hr) as (v & Hv & _).
    eexists. exact Hv. }
  destruct (comprehension_in _ _ Hstored) as [Hfwd Hback].
  assert (Hcmp : comparable q stored).
  { apply Forall_forall. intros c Hc. destruct (Hback c Hc) as (r & Hr & Hrc).
    destruct (Hdec r Hr) as (v & Hv & Hlen). rewrite Hv in Hrc.
    injection Hrc as <-. cbn [snd]. left.
    rewrite Hlen. apply (Hdim s q Hs Hq). }
  assert (Hself : In (auth.emb_id row, auth.emb_user_id row, q) stored).
  { destruct (Hfwd row Hrow_db) as (c & Hc & Hcin).
    rewrite (@decode_row_encoded row q Hbits Hrow), Hqq in Hc.
    injection Hc as <-. exact Hcin. }
  destruct (@find_match_query_stored q stored _ _ Hcmp Hself)
    as (i' & u' & Hmatch).
  destruct (find_match_some_inv _ _ Hmatch) as (v & Hv & _).
  destruct (Hback _ Hv) as (r & Hr & Hrc).
  destruct (Hdec r Hr) as (v' & Hv' & _). rewrite Hv' in Hrc.
  injection Hrc as _ Hu' _.
  destruct (Hint r Hr) as (owner & Howner & Hid).
  destruct (auth.first_user db' u') as [found |] eqn:Hfound.
  2: { exfalso. apply (proj1 (first_user_none db' u') Hfound owner Howner).
       congruence. }
  destruct (first_user_found _ _ Hfound) as [Hfound_in _].
  destruct (Hjwt (auth.update
                    [("user_id"%string, auth.IntClaim (auth.id found));
                     ("email"%string, auth.StrClaim (auth.email found))]
                    "exp"
                    (auth.TimeClaim
                       (utcnow + auth.ACCESS_TOKEN_EXPIRE_MINUTES * 60)%Z)))
    as [token' Htoken].
  eexists _, _, found. rewrite authenticate_user_run, Himg, Hemb.
  destruct (auth.face_embeddings db') as [| r0 rest] eqn:Hrows';
    [destruct Hrow_db |].
  rewrite Hstored, Hmatch, Hfound. unfold token_of, auth.create_access_token.
  rewrite Htoken.
  split; [reflexivity |]. split; [reflexivity |]. split; [reflexivity |].
  split; [exact Hfound_in | reflexivity].
Qed.

End EndToEnd.

Lemma demo_registration :
  demo_register ["a"; "b"; "c"]%string empty_db
  = (auth.Ok demo_response, demo_db,
     demo_image_trace ++ demo_image_trace ++ demo_image_trace).
Proof. reflexivity. Qed.

Lemma demo_accepts_good (s : string) :
  In s ["a"; "b"; "c"]%string ->
  accepted demo_b64decode demo_open_rgb s sample_query.
Proof. intros [<- | [<- | [<- | []]]]; reflexivity. Qed.

Lemma demo_accepts_only (s : string) (q : np.ndarray) :
  In s ["a"; "b"; "c"]%string ->
  accepted demo_b64decode demo_open_rgb s q -> q = sample_query.
Proof.
  intros Hs H. pose proof (demo_accepts_good Hs) as H'.
  unfold accepted in *. rewrite H in H'. injection H' as ->. reflexivity.
Qed.

Lemma demo_rejects_bad (q : np.ndarray) :
  ~ accepted demo_b64decode demo_open_rgb "bad" q.
Proof. unfold accepted. cbn. discriminate. Qed.

Lemma empty_db_integrity : referential_integrity empty_db.
Proof. intros e []. Qed.

Lemma demo_db_integrity : referential_integrity demo_db.
Proof.
  intros e He. exists demo_user. split; [left; reflexivity |].
  destruct He as [<- | [<- | [<- | []]]]; reflexivity.
Qed.

Lemma register_user_success_witness :
  exists embs rows token,
    (3 <= List.length ["a"; "b"; "c"]%string <= 10)%nat /\
    auth.first_user_by_email empty_db "ada@example.org" = None /\
    Forall2 (accepted demo_b64decode demo_open_rgb)
      ["a"; "b"; "c"]%string embs /\
    let u := auth.mkUser (demo_next_user_id empty_db) "Ada" "ada@example.org" 0 in
    auth.users demo_db = auth.users empty_db ++ [u] /\
    auth.face_embeddings demo_db = auth.face_embeddings empty_db ++ rows /\
    Forall2 (fun row q =>
               auth.emb_user_id row = auth.id u /\
               auth.embedding row = embedding_to_bytes (map demo_bits q))
      rows embs /\
    demo_response
    = auth.mkAuthResponse true
        ("User registered successfully with "
         ++ auth.str_nat (List.length ["a"; "b"; "c"]%string) ++ " face images")
        (Some (auth.model_validate u)) (Some token) "bearer" /\
    demo_image_trace ++ demo_image_trace ++ demo_image_trace
    = List.concat (map (image_effects demo_b64decode demo_open_rgb)
                     ["a"; "b"; "c"]%string).
Proof.
  apply (@register_user_success demo_b64decode demo_open_rgb demo_bits 0%Z
           sample_jwt_encode demo_next_user_id demo_next_embedding_id
           "Ada" "ada@example.org" ["a"; "b"; "c"]%string empty_db demo_db
           demo_response
           (demo_image_trace ++ demo_image_trace ++ demo_image_trace)).
  exact demo_registration.
Defined.

Lemma register_user_first_failure_witness :
  exists detail,
    demo_register (["a"%string; "b"%string] ++ "bad"%string :: ["c"%string])
      empty_db
    = (auth.HTTPException 400
         ("Image " ++ auth.str_nat (List.length ["a"; "b"]%string + 1) ++ ": "
          ++ detail),
       empty_db,
       List.concat (map (image_effects demo_b64decode demo_open_rgb)
                      ["a"; "b"]%string)
       ++ image_effects demo_b64decode demo_open_rgb "bad").
Proof.
  apply (@register_user_first_failure demo_b64decode demo_open_rgb demo_bits
           0%Z sample_jwt_encode demo_next_user_id demo_next_embedding_id
           "Ada" "ada@example.org" ["a"; "b"]%string
           [sample_query; sample_query] "bad" ["c"]%string empty_db).
  - reflexivity.
  - cbn. lia.
  - repeat constructor.
  - exact demo_rejects_bad.
Defined.

Lemma register_user_keeps_integrity_witness :
  referential_integrity (snd (fst (demo_register ["a"; "b"; "c"]%string empty_db))).
Proof.
  apply (@register_user_keeps_integrity demo_b64decode demo_open_rgb demo_bits
           0%Z sample_jwt_encode demo_next_user_id demo_next_embedding_id
           "Ada" "ada@example.org" ["a"; "b"; "c"]%string empty_db).
  exact empty_db_integrity.
Defined.

Lemma delete_user_cascade_witness :
  let db' := snd (auth.delete_user 1 demo_db) in
  referential_integrity db' /\
  auth.first_user db' 1 = None /\
  (forall e, In e (auth.face_embeddings db') -> auth.emb_user_id e <> 1%Z) /\
  (forall u, In u (auth.users demo_db) -> auth.id u <> 1%Z ->
             In u (auth.users db')) /\
  (forall e, In e (auth.face_embeddings demo_db) ->
             auth.emb_user_id e <> 1%Z ->
             In e (auth.face_embeddings db')).
Proof.
  apply (@delete_user_cascade 1%Z demo_db). exact demo_db_integrity.
Defined.

Lemma register_then_delete_witness :
  auth.delete_user 1 demo_db
  = (auth.Ok (true, ("User " ++ "Ada" ++ " deleted successfully")%string),
     empty_db).
Proof.
  apply (@register_then_delete demo_b64decode demo_open_rgb demo_bits 0%Z
           sample_jwt_encode demo_next_user_id demo_next_embedding_id
           "Ada" "ada@example.org" ["a"; "b"; "c"]%string empty_db demo_db
           demo_response
           (demo_image_trace ++ demo_image_trace ++ demo_image_trace) 1%Z).
  - exact empty_db_integrity.
  - reflexivity.
  - exact demo_registration.
  - reflexivity.
Defined.

Lemma register_then_authenticate_witness :
  exists resp' effects u,
    run (demo_authenticate "a" demo_db) = (Return resp', effects) /\
    auth.success resp' = true /\
    auth.message resp'
    = ("Authentication successful (confidence: " ++ sample_format 1 ++ ")")%string /\
    In u (auth.users demo_db) /\
    auth.user resp' = Some (auth.model_validate u).
Proof.
  apply (@register_then_authenticate demo_b64decode demo_open_rgb demo_bits
           sample_value 0%Z sample_jwt_encode sample_format
           demo_next_user_id demo_next_embedding_id
           "Ada" "ada@example.org" ["a"; "b"; "c"]%string empty_db demo_db
           demo_response
           (demo_image_trace ++ demo_image_trace ++ demo_image_trace)
           "a" 2%nat).
  - exact demo_registration.
  - left. reflexivity.
  - exact empty_db_integrity.
  - constructor.
  - intros s' q' Hs' H. rewrite (demo_accepts_only Hs' H). reflexivity.
  - intros x. unfold np.is_float32, demo_bits. lia.
  - intros q x H Hx.
    rewrite (@demo_accepts_only "a" q (or_introl eq_refl) H) in Hx.
    destruct Hx as [<- | [<- | []]]; reflexivity.
  - intros payload. exists "token"%string. reflexivity.
Defined.
